(** * Field and group resolution of the insurance data dictionary

    A shallow embedding of the resolution helpers at the end of
    [data-models/data-mappings.ts]:

    - [getNestedValue] and [getFieldOptions]   (state option resolver),
    - [getFieldConfigForDataField]             (template resolver),
    - [createDynamicGroups]                    (dynamic group materializer),
    - [buildGroupHierarchy]                    (group hierarchy builder).

    Conventions of the embedding.

    - Strings are sequences of 8-bit characters ([string]); a JavaScript
      string whose code units are all below 256 is read unit by unit.
      Case mapping and trimming are those of JavaScript on these
      characters; the upper case of a string that has the letter [µ] or
      [ÿ] is no such string.
    - Numbers: [Q] for [order] values (the registry has [order: 9.5]),
      [nat] for array indices, doubles ([float], IEEE 754 binary64) for
      the material percentages that the source adds up.  The index that
      [parseInt] reads from a key is an [N]; JavaScript has it exactly up
      to [MAX_SAFE_INTEGER], and the statements about such an index are
      for indices up to there.
    - A value of TypeScript type [any] is a term of [any] below: the JSON
      values and [undefined].  [get] reads their own properties; the
      statements about dotted paths are for paths through the own
      properties of nested objects.
    - The registries and the dictionaries that the helpers build are
      association lists or finite maps of their own properties, in the
      order of [Object.entries] / [Object.values], their keys being no
      array indices.  Where the source looks a key up in such an object,
      it finds an own property or a member that the object inherits from
      [Object.prototype] ([inherited]); the embedding reads both.  An
      assignment to the key [__proto__] makes no own property but
      replaces the prototype; the embedding does not follow the new
      prototype, and the statements about the hierarchy map are for ids
      other than [__proto__].
    - A call either returns or throws: [completion]. *)

From Stdlib Require Import String Ascii List ZArith QArith Lia Lqa.
From Stdlib Require Import PrimFloat.
From Stdlib Require Import DecimalString DecimalN DecimalPos.
From Stdlib Require Import Sorting.Sorted Sorting.Permutation.
From stdpp Require Import gmap strings.

Import ListNotations.
Open Scope string_scope.

(** ** Values of type [any] *)

#[warnings="-register-all"]
Inductive any : Type :=
  | VUndefined
  | VNull
  | VBool (b : bool)
  | VNum (n : Q)
  | VStr (s : string)
  | VArr (elements : list any)
  | VObj (properties : list (string * any)).

(** ** Completions: a call returns a value or throws *)

Inductive exn : Type := TypeError.

Inductive completion (A : Type) : Type :=
  | Normal (a : A)
  | Throw (e : exn).

Arguments Normal {A} a.
Arguments Throw {A} e.

#[global] Instance completion_ret : MRet completion := fun A a => Normal a.

#[global] Instance completion_bind : MBind completion := fun A B k c =>
  match c with
  | Normal a => k a
  | Throw e => Throw e
  end.

(** ** Strings *)

Module Str.

Definition is_digit (c : ascii) : bool :=
  (48 <=? nat_of_ascii c)%nat && (nat_of_ascii c <=? 57)%nat.

(** [String.prototype.includes] *)
Fixpoint includes (searchString s : string) : bool :=
  String.prefix searchString s
  || match s with
     | EmptyString => false
     | String _ rest => includes searchString rest
     end.

Fixpoint drop (n : nat) (s : string) : string :=
  match n, s with
  | O, _ => s
  | S n', String _ rest => drop n' rest
  | S _, EmptyString => EmptyString
  end.

(** [s.replace(pattern, replacement)] with a string pattern: the first
    occurrence only.  The replacement is taken literally, which is what
    JavaScript does when it holds no [$]. *)
Fixpoint replace (pattern replacement s : string) : string :=
  if String.prefix pattern s then replacement ++ drop (String.length pattern) s
  else match s with
       | EmptyString => EmptyString
       | String c rest => String c (replace pattern replacement rest)
       end.

(** The upper case of a character: of the letters [a] to [z] and of
    the Latin-1 letters [à] to [þ] the character 32 places before it, of
    [ß] the two letters [SS], of any other character but two the
    character itself.  The upper case of [µ] (U+039C) and of [ÿ] (U+0178)
    is no 8-bit character: [None]. *)
Definition upper (c : ascii) : option string :=
  let n := nat_of_ascii c in
  if ((97 <=? n)%nat && (n <=? 122)%nat)
     || ((224 <=? n)%nat && (n <=? 254)%nat && negb (n =? 247)%nat)
  then Some (String (ascii_of_nat (n - 32)) EmptyString)
  else if (n =? 223)%nat then Some "SS"
  else if (n =? 181)%nat || (n =? 255)%nat then None
  else Some (String c EmptyString).

(** [String.prototype.toUpperCase].  [None] stands for a result with a
    character above 255: a string that is not empty and that is equal to
    no string of the embedding. *)
Fixpoint toUpperCase (s : string) : option string :=
  match s with
  | EmptyString => Some EmptyString
  | String c rest =>
      match upper c, toUpperCase rest with
      | Some first, Some others => Some (first ++ others)
      | _, _ => None
      end
  end.

(** The string has one of the letters [a] to [z]. *)
Fixpoint has_lower (s : string) : bool :=
  match s with
  | EmptyString => false
  | String c rest =>
      ((97 <=? nat_of_ascii c)%nat && (nat_of_ascii c <=? 122)%nat) || has_lower rest
  end.

(** [s.split(separator)] for a one-character separator *)
Fixpoint split (separator : ascii) (s : string) : list string :=
  match s with
  | EmptyString => [EmptyString]
  | String c rest =>
      if Ascii.eqb c separator then EmptyString :: split separator rest
      else match split separator rest with
           | piece :: pieces => String c piece :: pieces
           | [] => [String c EmptyString]
           end
  end.

(** the longest prefix of digits, and what follows it *)
Fixpoint span_digits (s : string) : string * string :=
  match s with
  | String c rest =>
      if is_digit c then let (ds, r) := span_digits rest in (String c ds, r)
      else (EmptyString, s)
  | EmptyString => (EmptyString, EmptyString)
  end.

(** [s] starts with a match of [\[\d+\]]: the digits and what follows
    the closing bracket.  A digit run is followed by a non-digit, so the
    greedy [\d+] never has to give a digit back. *)
Definition bracketed_digits (s : string) : option (string * string) :=
  match s with
  | String "[" rest =>
      match span_digits rest with
      | (String d ds, String "]" r) => Some (String d ds, r)
      | _ => None
      end
  | _ => None
  end.

(** [parseInt] of a run of digits, and the decimal string of a number
    as a template literal prints it.  The embedding reads and prints every
    digit; JavaScript does so for the integers up to [MAX_SAFE_INTEGER],
    which are doubles, and rounds beyond. *)
Definition parseInt (digits : string) : N :=
  match NilZero.uint_of_string digits with
  | Some u => N.of_uint u
  | None => 0%N
  end.

Definition ofNumber (n : N) : string := NilEmpty.string_of_uint (N.to_uint n).

End Str.

(** ** JavaScript operators on [any] *)

Definition truthy (v : any) : bool :=
  match v with
  | VUndefined | VNull => false
  | VBool b => b
  | VNum n => negb (Qeq_bool n 0)
  | VStr s => negb (String.eqb s EmptyString)
  | VArr _ | VObj _ => true
  end.

Definition truthy_string (s : option string) : bool :=
  match s with
  | Some s => negb (String.eqb s EmptyString)
  | None => false
  end.

Definition truthy_bool (b : option bool) : bool :=
  match b with
  | Some b => b
  | None => false
  end.

Fixpoint assoc {A : Type} (key : string) (entries : list (string * A)) : option A :=
  match entries with
  | [] => None
  | (k, a) :: rest => if String.eqb k key then Some a else assoc key rest
  end.

(** The names of the members of [Object.prototype], which an object
    literal and the objects made from one inherit: functions, and under
    [__proto__] the prototype itself.  Each of them is truthy, none is an
    array or a field definition, and none has a [push] method. *)
Definition Object_prototype : list string :=
  [ "constructor"; "__defineGetter__"; "__defineSetter__"; "hasOwnProperty";
    "__lookupGetter__"; "__lookupSetter__"; "isPrototypeOf";
    "propertyIsEnumerable"; "toString"; "valueOf"; "__proto__";
    "toLocaleString" ].

Definition inherited (key : string) : bool :=
  existsb (String.eqb key) Object_prototype.

(** an array index in canonical form: ["0"], ["1"], ["12"], not ["01"] *)
Definition array_index (key : string) : option nat :=
  match NilZero.uint_of_string key with
  | Some u => if String.eqb (Str.ofNumber (N.of_uint u)) key
              then Some (N.to_nat (N.of_uint u)) else None
  | None => None
  end.

Fixpoint nth_char (n : nat) (s : string) : any :=
  match s, n with
  | EmptyString, _ => VUndefined
  | String c _, O => VStr (String c EmptyString)
  | String _ rest, S n' => nth_char n' rest
  end.

(** [v[key]] for a [v] that is neither [null] nor [undefined]: the own
    properties of objects, arrays and strings. *)
Definition get (v : any) (key : string) : any :=
  match v with
  | VObj properties =>
      match assoc key properties with
      | Some x => x
      | None => VUndefined
      end
  | VArr elements =>
      if String.eqb key "length" then VNum (inject_Z (Z.of_nat (List.length elements)))
      else match array_index key with
           | Some i => nth i elements VUndefined
           | None => VUndefined
           end
  | VStr s =>
      if String.eqb key "length" then VNum (inject_Z (Z.of_nat (String.length s)))
      else match array_index key with
           | Some i => nth_char i s
           | None => VUndefined
           end
  | _ => VUndefined
  end.

(** [v.key]: a [TypeError] on [null] and [undefined] *)
Definition member (v : any) (key : string) : completion any :=
  match v with
  | VUndefined | VNull => Throw TypeError
  | _ => Normal (get v key)
  end.

(** [v?.key] *)
Definition optional_member (v : any) (key : string) : any :=
  match v with
  | VUndefined | VNull => VUndefined
  | _ => get v key
  end.

(** ** Data model *)

Inductive FieldInputType : Type :=
  | it_text | it_number | it_currency | it_percentage | it_phone | it_email
  | it_date | it_dropdown | it_multiselect | it_textarea | it_radio
  | it_checkbox | it_zip | it_ssn | it_license | it_vin | it_address
  | it_material_percentage | it_claims_array.

Inductive TextCasing : Type :=
  | title | upper | lower | sentence | none.

Inductive Section_ : Type := applicant | home | auto.

Module DropdownOption.
Record t : Type := mk
  { value : string;
    label : string;
    disabled : option bool }.
End DropdownOption.

(** An option of the registry tables, which never set [disabled]. *)
Definition opt (value label : string) : DropdownOption.t :=
  DropdownOption.mk value label None.

(** [{ [stateCode: string]: DropdownOption[]; default: DropdownOption[] }]:
    one object, whose [default] property the type makes mandatory. *)
Module StateSpecificOptions.
Record t : Type := mk
  { byState : gmap string (list DropdownOption.t);
    default : list DropdownOption.t }.

(** [stateSpecificOptions[stateCode]] for an upper-cased [stateCode].
    The name of every member that the object inherits has a lower-case
    letter, as the key [default] has; an upper-cased string has none. *)
Definition lookup (o : t) (stateCode : string) : option (list DropdownOption.t) :=
  if String.eqb stateCode "default" then Some (default o)
  else byState o !! stateCode.
End StateSpecificOptions.

Inductive ValidationType : Type :=
  | v_required | v_min | v_max | v_minLength | v_maxLength | v_pattern
  | v_email | v_phone | v_custom.

Module ValidationRule.
Record t : Type := mk
  { type : ValidationType;
    value : option any;
    message : option string }.
End ValidationRule.

Inductive ConditionalWhen : Type :=
  | equals | not_equals | contains | greater_than | less_than.

Module Conditional.
Record t : Type := mk
  { dependsOn : string;
    when : ConditionalWhen;
    value : any }.
End Conditional.

Module FieldGroup.
Record t : Type := mk
  { id : string;
    name : string;
    order : Q;
    description : option string;
    defaultOpen : option bool;
    parentGroup : option string;
    isTemplate : option bool;
    templatePattern : option string;
    dynamicNamePattern : option string }.
End FieldGroup.

Module FieldConfiguration.
Record t : Type := mk
  { key : string;
    label : string;
    description : option string;
    inputType : FieldInputType;
    placeholder : option string;
    options : option (list DropdownOption.t);
    stateSpecificOptions : option StateSpecificOptions.t;
    dependsOnStateFrom : option string;
    displayCasing : TextCasing;
    inputCasing : option TextCasing;
    prefix : option string;
    suffix : option string;
    validations : option (list ValidationRule.t);
    required : option bool;
    group : option string;
    order : Q;
    section : Section_;
    hidden : option bool;
    readonly : option bool;
    conditional : option Conditional.t;
    customFormatter : option string;
    customValidator : option string }.

(** [{ ...config, key: key', group: group' }] *)
Definition with_key_group (config : t) (key' : string) (group' : option string) : t :=
  {| key := key';
     label := label config;
     description := description config;
     inputType := inputType config;
     placeholder := placeholder config;
     options := options config;
     stateSpecificOptions := stateSpecificOptions config;
     dependsOnStateFrom := dependsOnStateFrom config;
     displayCasing := displayCasing config;
     inputCasing := inputCasing config;
     prefix := prefix config;
     suffix := suffix config;
     validations := validations config;
     required := required config;
     group := group';
     order := order config;
     section := section config;
     hidden := hidden config;
     readonly := readonly config;
     conditional := conditional config;
     customFormatter := customFormatter config;
     customValidator := customValidator config |}.
End FieldConfiguration.

(** The field registry [FIELD_CONFIGURATIONS] and the group registry
    [FIELD_GROUPS], in the order [Object.entries] enumerates them. *)
Definition registry : Type := list (string * FieldConfiguration.t).
Definition group_registry : Type := list (string * FieldGroup.t).

(** ** State option resolver *)

(** [path.split('.').reduce((current, key) =>
       current && current[key] !== undefined ? current[key] : undefined, obj)] *)
Definition getNestedValue (obj : any) (path : string) : any :=
  fold_left
    (fun current key =>
       if truthy current
       then match get current key with
            | VUndefined => VUndefined
            | found => found
            end
       else VUndefined)
    (Str.split "." path) obj.

(** [stateFieldValue?.toUpperCase()]: [undefined] ([None]) when the
    value is [null] or [undefined], the upper-cased string when it is a
    string; any other value has no [toUpperCase] method and the call
    throws. *)
Definition optional_toUpperCase (stateFieldValue : any)
  : completion (option (option string)) :=
  match stateFieldValue with
  | VUndefined | VNull => Normal None
  | VStr s => Normal (Some (Str.toUpperCase s))
  | VBool _ | VNum _ | VArr _ | VObj _ => Throw TypeError
  end.

Definition getFieldOptions (fieldConfig : FieldConfiguration.t) (auditData : any)
  : completion (list DropdownOption.t) :=
  match FieldConfiguration.options fieldConfig with
  | Some options => Normal options
  | None =>
      match FieldConfiguration.stateSpecificOptions fieldConfig,
            FieldConfiguration.dependsOnStateFrom fieldConfig with
      | Some stateSpecificOptions, Some dependsOnStateFrom =>
          if truthy_string (Some dependsOnStateFrom) then
            let stateFieldValue := getNestedValue auditData dependsOnStateFrom in
            stateCode ← optional_toUpperCase stateFieldValue;
            match stateCode with
            | Some (Some code) =>
                if truthy_string (Some code) then
                  match StateSpecificOptions.lookup stateSpecificOptions code with
                  | Some options => Normal options
                  | None => Normal (StateSpecificOptions.default stateSpecificOptions)
                  end
                else Normal (StateSpecificOptions.default stateSpecificOptions)
            | Some None | None =>
                Normal (StateSpecificOptions.default stateSpecificOptions)
            end
          else Normal []
      | _, _ => Normal []
      end
  end.

(** ** Template resolver *)

(** The regular expressions the resolver builds: a sequence of
    [\[\d+\]], [.] and literal characters between [^] and [$]. *)
Inductive pattern_item : Type :=
  | PIndex
  | PAny
  | PChar (c : ascii).

(** Characters with a meaning of their own in a regular expression. *)
Definition is_syntax_character (c : ascii) : bool :=
  Str.includes (String c EmptyString) "\^$.*+?()[]{}|".

(** The length of a match of [\[(\*|\d+)\]] at the start of [s]. *)
Definition placeholder_length (s : string) : option nat :=
  if String.prefix "[*]" s then Some 3%nat
  else match Str.bracketed_digits s with
       | Some (digits, _) => Some (String.length digits + 2)%nat
       | None => None
       end.

(** [new RegExp(`^${templateKey.replace(/\[(\*|\d+)\]/g, '\\[\\d+\\]')}$`)].

    [skip] counts the characters of the current placeholder still to be
    passed over.  Outside the placeholders a dot stands for any character
    and a character without meaning in a regular expression for itself.
    Another syntax character there ([(], [+], [|], ...) would be read by
    [RegExp] as an operator, or make it throw: the embedding gives no
    pattern for such a key ([None]). *)
Fixpoint template_pattern (skip : nat) (templateKey : string) : option (list pattern_item) :=
  match templateKey with
  | EmptyString => Some []
  | String c rest =>
      match skip with
      | S skip' => template_pattern skip' rest
      | O =>
          match placeholder_length templateKey with
          | Some n => cons PIndex <$> template_pattern (n - 1) rest
          | None =>
              if Ascii.eqb c "." then cons PAny <$> template_pattern 0 rest
              else if is_syntax_character c then None
              else cons (PChar c) <$> template_pattern 0 rest
          end
      end
  end.

(** A dot matches any character but a line terminator. *)
Definition is_line_terminator (c : ascii) : bool :=
  Ascii.eqb c "010" || Ascii.eqb c "013".

(** [regex.test(s)] for the anchored pattern *)
Fixpoint regex_test (pattern : list pattern_item) (s : string) : bool :=
  match pattern with
  | [] => String.eqb s EmptyString
  | PIndex :: pattern' =>
      match Str.bracketed_digits s with
      | Some (_, rest) => regex_test pattern' rest
      | None => false
      end
  | PAny :: pattern' =>
      match s with
      | String c rest => negb (is_line_terminator c) && regex_test pattern' rest
      | EmptyString => false
      end
  | PChar c' :: pattern' =>
      match s with
      | String c rest => Ascii.eqb c c' && regex_test pattern' rest
      | EmptyString => false
      end
  end.

(** [dataFieldKey.match(/\[(\d+)\]/)]: the digits of the leftmost match *)
Fixpoint indexMatch (dataFieldKey : string) : option string :=
  match Str.bracketed_digits dataFieldKey with
  | Some (digits, _) => Some digits
  | None =>
      match dataFieldKey with
      | EmptyString => None
      | String _ rest => indexMatch rest
      end
  end.

(** [indexMatch ? parseInt(indexMatch[1]) : 0] *)
Definition index_of (dataFieldKey : string) : N :=
  match indexMatch dataFieldKey with
  | Some digits => Str.parseInt digits
  | None => 0%N
  end.

(** [config.group?.replace('_template', `_${index}`) || config.group] *)
Definition dynamic_group (group : option string) (index : N) : option string :=
  match group with
  | None => None
  | Some g =>
      let replaced := Str.replace "_template" ("_" ++ Str.ofNumber index) g in
      if truthy_string (Some replaced) then Some replaced else Some g
  end.

(** What the resolver returns: a field definition, [null], or the member
    of [Object.prototype] that [FIELD_CONFIGURATIONS[dataFieldKey]] finds
    under an inherited name.  [UnreadPattern] is no result of the source:
    it marks a template key whose regular expression the embedding does
    not read. *)
Inductive resolution : Type :=
  | Resolved (config : FieldConfiguration.t)
  | NotFound
  | Member (name : string)
  | UnreadPattern (templateKey : string).

(** The loop over [Object.entries(FIELD_CONFIGURATIONS)]. *)
Fixpoint matchTemplates (entries : registry) (dataFieldKey : string) : resolution :=
  match entries with
  | [] => NotFound
  | (templateKey, config) :: rest =>
      if Str.includes "[*]" templateKey then
        match template_pattern 0 templateKey with
        | None => UnreadPattern templateKey
        | Some pattern =>
            if regex_test pattern dataFieldKey then
              let index := index_of dataFieldKey in
              Resolved
                (FieldConfiguration.with_key_group config dataFieldKey
                   (dynamic_group (FieldConfiguration.group config) index))
            else matchTemplates rest dataFieldKey
        end
      else matchTemplates rest dataFieldKey
  end.

Definition getFieldConfigForDataField (FIELD_CONFIGURATIONS : registry)
    (dataFieldKey : string) : resolution :=
  match assoc dataFieldKey FIELD_CONFIGURATIONS with
  | Some config => Resolved config
  | None =>
      if inherited dataFieldKey then Member dataFieldKey
      else matchTemplates FIELD_CONFIGURATIONS dataFieldKey
  end.

(** ** Dynamic group materializer *)

(** [collection || []], then [.forEach((element, index) => ...)]: the
    elements to visit.  A truthy value that is not an array has no
    [forEach] method and the call throws. *)
Definition elements_or_empty (collection : any) : completion (list any) :=
  if truthy collection then
    match collection with
    | VArr elements => Normal elements
    | _ => Throw TypeError
    end
  else Normal [].

Definition household_member_group (template : FieldGroup.t) (index : nat) : FieldGroup.t :=
  {| FieldGroup.id := "household_member_" ++ Str.ofNumber (N.of_nat index);
     FieldGroup.name := "Household Member " ++ Str.ofNumber (N.of_nat (index + 1));
     FieldGroup.order := (FieldGroup.order template + inject_Z (Z.of_nat index))%Q;
     FieldGroup.description :=
       Some ("Information for household member " ++ Str.ofNumber (N.of_nat (index + 1)));
     FieldGroup.defaultOpen := None;
     FieldGroup.parentGroup := FieldGroup.parentGroup template;
     FieldGroup.isTemplate := None;
     FieldGroup.templatePattern := None;
     FieldGroup.dynamicNamePattern := None |}.

Definition vehicle_group (template : FieldGroup.t) (index : nat) : FieldGroup.t :=
  {| FieldGroup.id := "vehicle_" ++ Str.ofNumber (N.of_nat index);
     FieldGroup.name := "Vehicle " ++ Str.ofNumber (N.of_nat (index + 1));
     FieldGroup.order := (FieldGroup.order template + inject_Z (Z.of_nat index))%Q;
     FieldGroup.description :=
       Some ("Information for vehicle " ++ Str.ofNumber (N.of_nat (index + 1)));
     FieldGroup.defaultOpen := None;
     FieldGroup.parentGroup := FieldGroup.parentGroup template;
     FieldGroup.isTemplate := None;
     FieldGroup.templatePattern := None;
     FieldGroup.dynamicNamePattern := None |}.

(** The body of [templateGroups.forEach(template => ...)], from the
    groups pushed so far to the groups pushed after it. *)
Definition materialize (data : any) (dynamicGroups : list FieldGroup.t)
    (template : FieldGroup.t) : completion (list FieldGroup.t) :=
  if negb (truthy_bool (FieldGroup.isTemplate template))
     || negb (truthy_string (FieldGroup.templatePattern template))
  then Normal dynamicGroups
  else
    dynamicGroups ←
      (if decide (FieldGroup.templatePattern template = Some "client.household_members[*]")
       then
         client ← member data "client";
         householdMembers ← elements_or_empty (optional_member client "household_members");
         Normal (dynamicGroups
                   ++ imap (fun index _ => household_member_group template index)
                        householdMembers)%list
       else Normal dynamicGroups);
    if decide (FieldGroup.templatePattern template = Some "auto.vehicles[*]")
    then
      auto ← member data "auto";
      vehicles ← elements_or_empty (optional_member auto "vehicles");
      Normal (dynamicGroups
                ++ imap (fun index _ => vehicle_group template index) vehicles)%list
    else Normal dynamicGroups.

Definition createDynamicGroups (data : any) (templateGroups : list FieldGroup.t)
  : completion (list FieldGroup.t) :=
  fold_left (fun pushed template => dynamicGroups ← pushed; materialize data dynamicGroups template)
    templateGroups (Normal []).

(** ** Group hierarchy builder *)

(** [(a, b) => a.order - b.order] *)
Definition compareOrder (a b : FieldGroup.t) : Q :=
  (FieldGroup.order a - FieldGroup.order b)%Q.

(** [Array.prototype.sort(compareFn)] is stable (ECMAScript 2019): of two
    elements that compare equal the one that came first stays first.  For
    a comparator that orders the elements by a key the sorted array is
    then determined, and is what this insertion sort builds: an element
    goes in front of the first one it does not exceed. *)
Fixpoint insert_sorted {A : Type} (compareFn : A -> A -> Q) (x : A) (sorted : list A) : list A :=
  match sorted with
  | [] => [x]
  | y :: rest =>
      if Qle_bool (compareFn x y) 0 then x :: y :: rest
      else y :: insert_sorted compareFn x rest
  end.

Fixpoint sort {A : Type} (compareFn : A -> A -> Q) (l : list A) : list A :=
  match l with
  | [] => []
  | x :: rest => insert_sorted compareFn x (sort compareFn rest)
  end.

Module Hierarchy.
Record t : Type := mk
  { topLevel : list FieldGroup.t;
    hierarchy : gmap string (list FieldGroup.t) }.
End Hierarchy.

(** First loop: [if (!group.parentGroup) { topLevel.push(group);
    hierarchy[group.id] = []; }].  The assignment makes or resets the own
    property [group.id].  For the id [__proto__] it makes none: it
    replaces the prototype of the map, which the embedding does not
    follow. *)
Definition initialize (state : Hierarchy.t) (group : FieldGroup.t) : Hierarchy.t :=
  if negb (truthy_string (FieldGroup.parentGroup group))
  then {| Hierarchy.topLevel := (Hierarchy.topLevel state ++ [group])%list;
          Hierarchy.hierarchy :=
            if String.eqb (FieldGroup.id group) "__proto__"
            then Hierarchy.hierarchy state
            else <[FieldGroup.id group := []]> (Hierarchy.hierarchy state) |}
  else state.

(** Second loop: [if (group.parentGroup && hierarchy[group.parentGroup])
    hierarchy[group.parentGroup].push(group)].  For a parent id that is
    no key of the map [hierarchy[group.parentGroup]] is [undefined],
    unless the id is the name of a member that the map inherits: that
    member is truthy and has no [push] method, and the call throws. *)
Definition addChild (hierarchy : gmap string (list FieldGroup.t)) (group : FieldGroup.t)
  : completion (gmap string (list FieldGroup.t)) :=
  match FieldGroup.parentGroup group with
  | Some parentGroup =>
      if truthy_string (Some parentGroup) then
        match hierarchy !! parentGroup with
        | Some children => Normal (<[parentGroup := (children ++ [group])%list]> hierarchy)
        | None => if inherited parentGroup then Throw TypeError else Normal hierarchy
        end
      else Normal hierarchy
  | None => Normal hierarchy
  end.

(** [allGroups.forEach(group => ...)] of the second loop. *)
Definition addChildren (allGroups : list FieldGroup.t)
    (hierarchy : gmap string (list FieldGroup.t))
  : completion (gmap string (list FieldGroup.t)) :=
  fold_left (fun added group => hierarchy ← added; addChild hierarchy group)
    allGroups (Normal hierarchy).

Definition buildGroupHierarchy (flatGroups : group_registry)
    (dynamicGroups : list FieldGroup.t) : completion Hierarchy.t :=
  let allGroups := (map snd flatGroups ++ dynamicGroups)%list in
  let initialized := fold_left initialize allGroups (Hierarchy.mk [] ∅) in
  hierarchy ← addChildren allGroups (Hierarchy.hierarchy initialized);
  Normal {| Hierarchy.topLevel := sort compareOrder (Hierarchy.topLevel initialized);
            Hierarchy.hierarchy := sort compareOrder <$> hierarchy |}.

(** ** Terms of the statements about the template resolver *)

(** The entry is a template whose key is made of bracketed placeholders,
    dots and characters without a meaning in a regular expression, and
    whose pattern the data field key matches. *)
Definition matches (dataFieldKey : string) (entry : string * FieldConfiguration.t) : Prop :=
  Str.includes "[*]" entry.1 = true
  ∧ ∃ pattern, template_pattern 0 entry.1 = Some pattern
               ∧ regex_test pattern dataFieldKey = true.

(** The entry is no template, or a template whose key is made of
    bracketed placeholders, dots and characters without a meaning in a
    regular expression, and whose pattern the data field key does not
    match. *)
Definition passed_over (dataFieldKey : string) (entry : string * FieldConfiguration.t) : Prop :=
  Str.includes "[*]" entry.1 = true →
  ∃ pattern, template_pattern 0 entry.1 = Some pattern
             ∧ regex_test pattern dataFieldKey = false.

(** [Number.MAX_SAFE_INTEGER]: up to here every integer is a double, and
    [parseInt] and a template literal read and print it digit by digit. *)
Definition MAX_SAFE_INTEGER : N := 9007199254740991.

(** What the resolver builds from the template it stops at. *)
Definition instantiate (dataFieldKey : string) (config : FieldConfiguration.t)
  : FieldConfiguration.t :=
  FieldConfiguration.with_key_group config dataFieldKey
    (dynamic_group (FieldConfiguration.group config) (index_of dataFieldKey)).

(** The group rewriting in the words of the specification: a group id
    that ends with the suffix [_template] has that suffix replaced by
    [_<index>], any other group id is left as it is. *)
Definition ends_with (suffix s : string) : bool :=
  (String.length suffix <=? String.length s)%nat
  && String.eqb (Str.drop (String.length s - String.length suffix) s) suffix.

Definition suffix_rewrite (group : option string) (index : N) : option string :=
  match group with
  | None => None
  | Some g =>
      if ends_with "_template" g
      then Some (String.substring 0 (String.length g - 9) g ++ "_" ++ Str.ofNumber index)
      else Some g
  end.

(** The template resolver as the specification words it: for a key with
    no entry of its own, the first template that matches is returned with
    the key overwritten and the group rewritten at its suffix. *)
Definition suffix_rewrite_claim : Prop :=
  ∀ (before after : registry) (templateKey dataFieldKey : string)
    (config : FieldConfiguration.t),
    let FIELD_CONFIGURATIONS := (before ++ (templateKey, config) :: after)%list in
    (∀ c, (dataFieldKey, c) ∉ FIELD_CONFIGURATIONS) →
    Forall (passed_over dataFieldKey) before →
    matches dataFieldKey (templateKey, config) →
    getFieldConfigForDataField FIELD_CONFIGURATIONS dataFieldKey
    = Resolved
        (FieldConfiguration.with_key_group config dataFieldKey
           (suffix_rewrite (FieldConfiguration.group config) (index_of dataFieldKey))).

(** ** Terms of the statements about the state option resolver *)

(** The data context has the value [v] at the path: every segment names
    an own property, and every segment but the last the property of an
    object that holds a nested object. *)
Inductive value_at : any → list string → any → Prop :=
  | value_here (v : any) : value_at v [] v
  | value_below (properties : list (string * any)) (key : string)
      (keys : list string) (child v : any) :
      assoc key properties = Some child →
      value_at child keys v →
      value_at (VObj properties) (key :: keys) v.

(** The path is missing from the data context: on the way through the
    own properties of nested objects there is [null] or [undefined], or
    an object that neither has the next segment as a property nor
    inherits a member of that name. *)
Inductive missing_at : any → list string → Prop :=
  | missing_null (keys : list string) : missing_at VNull keys
  | missing_undefined (keys : list string) : missing_at VUndefined keys
  | missing_property (properties : list (string * any)) (key : string)
      (keys : list string) :
      assoc key properties = None →
      inherited key = false →
      missing_at (VObj properties) (key :: keys)
  | missing_below (properties : list (string * any)) (key : string)
      (keys : list string) (child : any) :
      assoc key properties = Some child →
      missing_at child keys →
      missing_at (VObj properties) (key :: keys).

(** ** Terms of the statements about the dynamic group materializer *)

(** The repeated collection [section.collection] of a data document, as
    the list of its elements: the array stored there, or no element when
    the section or the collection is missing or null. *)
Inductive collection_at (data : any) (section collection : string) : list any → Prop :=
  | collection_present properties sectionProperties elements :
      data = VObj properties →
      assoc section properties = Some (VObj sectionProperties) →
      assoc collection sectionProperties = Some (VArr elements) →
      collection_at data section collection elements
  | collection_missing properties sectionProperties :
      data = VObj properties →
      assoc section properties = Some (VObj sectionProperties) →
      assoc collection sectionProperties = None
      ∨ assoc collection sectionProperties = Some VNull →
      collection_at data section collection []
  | section_missing properties :
      data = VObj properties →
      assoc section properties = None ∨ assoc section properties = Some VNull →
      collection_at data section collection [].

(** ** Terms of the statements about the group hierarchy builder *)

(** [!group.parentGroup]: no parent id, or the empty string. *)
Definition is_top_level (group : FieldGroup.t) : bool :=
  negb (truthy_string (FieldGroup.parentGroup group)).

(** The group names [parentId], a non-empty id, as its parent. *)
Definition child_of (parentId : string) (group : FieldGroup.t) : bool :=
  truthy_string (FieldGroup.parentGroup group)
  && bool_decide (FieldGroup.parentGroup group = Some parentId).

(** The group names as its parent a member that the hierarchy map
    inherits: a non-empty id that is a name of [Object.prototype] and the
    id of no group without a parent. *)
Definition names_inherited (allGroups : list FieldGroup.t) (group : FieldGroup.t) : bool :=
  match FieldGroup.parentGroup group with
  | Some parentId =>
      truthy_string (Some parentId) && inherited parentId
      && negb (bool_decide
                 (parentId ∈ FieldGroup.id <$> List.filter is_top_level allGroups))
  | None => false
  end.

(** No group without a parent has the id [__proto__]. *)
Definition own_ids (allGroups : list FieldGroup.t) : Prop :=
  Forall (λ group, FieldGroup.id group ≠ "__proto__")
    (List.filter is_top_level allGroups).

Definition same_order (q : Q) (group : FieldGroup.t) : bool :=
  Qeq_bool (FieldGroup.order group) q.

(** Ascending by [order]. *)
Definition ordered (groups : list FieldGroup.t) : Prop :=
  StronglySorted (λ a b, (FieldGroup.order a <= FieldGroup.order b)%Q) groups.

(** A stable sort by [order]: ascending, and the groups of any one order
    are the same as before, in the same sequence. *)
Definition stably_sorted (groups sorted : list FieldGroup.t) : Prop :=
  ordered sorted
  ∧ sorted ≡ₚ groups
  ∧ ∀ q, List.filter (same_order q) sorted = List.filter (same_order q) groups.

(** ** Entries of the registries *)

Module Sample.

Definition field (key label : string) (inputType : FieldInputType)
    (displayCasing : TextCasing) (group : string) (section : Section_)
    (order : Q) : FieldConfiguration.t :=
  {| FieldConfiguration.key := key;
     FieldConfiguration.label := label;
     FieldConfiguration.description := None;
     FieldConfiguration.inputType := inputType;
     FieldConfiguration.placeholder := None;
     FieldConfiguration.options := None;
     FieldConfiguration.stateSpecificOptions := None;
     FieldConfiguration.dependsOnStateFrom := None;
     FieldConfiguration.displayCasing := displayCasing;
     FieldConfiguration.inputCasing := None;
     FieldConfiguration.prefix := None;
     FieldConfiguration.suffix := None;
     FieldConfiguration.validations := None;
     FieldConfiguration.required := None;
     FieldConfiguration.group := Some group;
     FieldConfiguration.order := order;
     FieldConfiguration.section := section;
     FieldConfiguration.hidden := None;
     FieldConfiguration.readonly := None;
     FieldConfiguration.conditional := None;
     FieldConfiguration.customFormatter := None;
     FieldConfiguration.customValidator := None |}.

Definition named_validations : list ValidationRule.t :=
  [ ValidationRule.mk v_required None (Some "First name is required");
    ValidationRule.mk v_minLength (Some (VNum 1)) (Some "First name cannot be empty") ].

Definition with_name_rules (inputCasing : TextCasing) (c : FieldConfiguration.t)
  : FieldConfiguration.t :=
  {| FieldConfiguration.key := FieldConfiguration.key c;
     FieldConfiguration.label := FieldConfiguration.label c;
     FieldConfiguration.description := FieldConfiguration.description c;
     FieldConfiguration.inputType := FieldConfiguration.inputType c;
     FieldConfiguration.placeholder := FieldConfiguration.placeholder c;
     FieldConfiguration.options := FieldConfiguration.options c;
     FieldConfiguration.stateSpecificOptions := FieldConfiguration.stateSpecificOptions c;
     FieldConfiguration.dependsOnStateFrom := FieldConfiguration.dependsOnStateFrom c;
     FieldConfiguration.displayCasing := FieldConfiguration.displayCasing c;
     FieldConfiguration.inputCasing := Some inputCasing;
     FieldConfiguration.prefix := FieldConfiguration.prefix c;
     FieldConfiguration.suffix := FieldConfiguration.suffix c;
     FieldConfiguration.validations := Some named_validations;
     FieldConfiguration.required := Some true;
     FieldConfiguration.group := FieldConfiguration.group c;
     FieldConfiguration.order := FieldConfiguration.order c;
     FieldConfiguration.section := FieldConfiguration.section c;
     FieldConfiguration.hidden := FieldConfiguration.hidden c;
     FieldConfiguration.readonly := FieldConfiguration.readonly c;
     FieldConfiguration.conditional := FieldConfiguration.conditional c;
     FieldConfiguration.customFormatter := FieldConfiguration.customFormatter c;
     FieldConfiguration.customValidator := FieldConfiguration.customValidator c |}.

Definition with_state_options (dependsOnStateFrom : string)
    (stateSpecificOptions : StateSpecificOptions.t) (c : FieldConfiguration.t)
  : FieldConfiguration.t :=
  {| FieldConfiguration.key := FieldConfiguration.key c;
     FieldConfiguration.label := FieldConfiguration.label c;
     FieldConfiguration.description := FieldConfiguration.description c;
     FieldConfiguration.inputType := FieldConfiguration.inputType c;
     FieldConfiguration.placeholder := FieldConfiguration.placeholder c;
     FieldConfiguration.options := FieldConfiguration.options c;
     FieldConfiguration.stateSpecificOptions := Some stateSpecificOptions;
     FieldConfiguration.dependsOnStateFrom := Some dependsOnStateFrom;
     FieldConfiguration.displayCasing := FieldConfiguration.displayCasing c;
     FieldConfiguration.inputCasing := FieldConfiguration.inputCasing c;
     FieldConfiguration.prefix := FieldConfiguration.prefix c;
     FieldConfiguration.suffix := FieldConfiguration.suffix c;
     FieldConfiguration.validations := FieldConfiguration.validations c;
     FieldConfiguration.required := FieldConfiguration.required c;
     FieldConfiguration.group := FieldConfiguration.group c;
     FieldConfiguration.order := FieldConfiguration.order c;
     FieldConfiguration.section := FieldConfiguration.section c;
     FieldConfiguration.hidden := FieldConfiguration.hidden c;
     FieldConfiguration.readonly := FieldConfiguration.readonly c;
     FieldConfiguration.conditional := FieldConfiguration.conditional c;
     FieldConfiguration.customFormatter := FieldConfiguration.customFormatter c;
     FieldConfiguration.customValidator := FieldConfiguration.customValidator c |}.

(** ['client.first_name'] *)
Definition client_first_name : FieldConfiguration.t :=
  with_name_rules title
    (field "client.first_name" "First Name" it_text title
       "personal_information" applicant 1).

(** ['client.household_members[*].first_name'], the first template key
    of [FIELD_CONFIGURATIONS] *)
Definition household_member_first_name : FieldConfiguration.t :=
  with_name_rules title
    (field "client.household_members[*].first_name" "First Name" it_text title
       "household_member_template" applicant 1).

(** ['client.household_members[*].middle_name'] *)
Definition household_member_middle_name : FieldConfiguration.t :=
  {| FieldConfiguration.key := "client.household_members[*].middle_name";
     FieldConfiguration.label := "Middle Name";
     FieldConfiguration.description := None;
     FieldConfiguration.inputType := it_text;
     FieldConfiguration.placeholder := None;
     FieldConfiguration.options := None;
     FieldConfiguration.stateSpecificOptions := None;
     FieldConfiguration.dependsOnStateFrom := None;
     FieldConfiguration.displayCasing := title;
     FieldConfiguration.inputCasing := Some title;
     FieldConfiguration.prefix := None;
     FieldConfiguration.suffix := None;
     FieldConfiguration.validations := None;
     FieldConfiguration.required := None;
     FieldConfiguration.group := Some "household_member_template";
     FieldConfiguration.order := 2;
     FieldConfiguration.section := applicant;
     FieldConfiguration.hidden := None;
     FieldConfiguration.readonly := None;
     FieldConfiguration.conditional := None;
     FieldConfiguration.customFormatter := None;
     FieldConfiguration.customValidator := None |}.

(** ['home.foundation_land_type'] *)
Definition foundation_land_type : FieldConfiguration.t :=
  {| FieldConfiguration.key := "home.foundation_land_type";
     FieldConfiguration.label := "Foundation Land Type";
     FieldConfiguration.description := None;
     FieldConfiguration.inputType := it_text;
     FieldConfiguration.placeholder := None;
     FieldConfiguration.options := None;
     FieldConfiguration.stateSpecificOptions := None;
     FieldConfiguration.dependsOnStateFrom := None;
     FieldConfiguration.displayCasing := title;
     FieldConfiguration.inputCasing := Some title;
     FieldConfiguration.prefix := None;
     FieldConfiguration.suffix := None;
     FieldConfiguration.validations := None;
     FieldConfiguration.required := None;
     FieldConfiguration.group := Some "exterior";
     FieldConfiguration.order := 10;
     FieldConfiguration.section := home;
     FieldConfiguration.hidden := None;
     FieldConfiguration.readonly := None;
     FieldConfiguration.conditional := None;
     FieldConfiguration.customFormatter := None;
     FieldConfiguration.customValidator := None |}.

(** the roof type field of the mappings guide: codes FL, CA, default *)
Definition roof_type_options : StateSpecificOptions.t :=
  {| StateSpecificOptions.byState :=
       <["FL" := [opt "tile" "Tile"; opt "metal" "Metal";
                  opt "comp_shingle" "Composition Shingle"]]>
       (<["CA" := [opt "tile" "Tile"; opt "comp_shingle" "Composition Shingle";
                   opt "wood_shake" "Wood Shake"]]> ∅);
     StateSpecificOptions.default :=
       [opt "comp_shingle" "Composition Shingle"; opt "asphalt" "Asphalt"] |}.

Definition roof_type : FieldConfiguration.t :=
  with_state_options "home.property_address.state" roof_type_options
    (field "home.construction.roof_type" "Roof Type" it_dropdown title
       "construction_details" home 15).

(** A template whose group id has [_template] in the middle; the tables
    of the repository have none. *)
Definition vehicle_note : FieldConfiguration.t :=
  field "auto.vehicles[*].note" "Note" it_text none
    "vehicle_template_notes" auto 1.

(** ['home.foundation_type'], with lists for FL and default *)
Definition foundation_type_options : StateSpecificOptions.t :=
  {| StateSpecificOptions.byState :=
       <["FL" := [opt "Basement" "Basement";
                  opt "Basement - Finished" "Basement - Finished";
                  opt "Basement - Unfinished" "Basement - Unfinished";
                  opt "Basement - Walkout" "Basement - Walkout";
                  opt "Closed" "Closed";
                  opt "Crawlspace" "Crawlspace";
                  opt "Elevated Post/Pier & Beam" "Elevated Post/Pier & Beam";
                  opt "Hillside Foundation" "Hillside Foundation";
                  opt "Open" "Open";
                  opt "Other" "Other";
                  opt "Piers" "Piers";
                  opt "Pilings (Other)" "Pilings (Other)";
                  opt "Pilings/Stilts" "Pilings/Stilts";
                  opt "Slab" "Slab"]]> ∅;
     StateSpecificOptions.default :=
       [opt "Basement - Finished" "Basement - Finished";
        opt "Basement - Unfinished" "Basement - Unfinished";
        opt "Basement - Walkout" "Basement - Walkout";
        opt "Hillside Foundation" "Hillside Foundation";
        opt "Other" "Other";
        opt "Piers" "Piers";
        opt "Pilings/Stilts" "Pilings/Stilts";
        opt "Slab" "Slab"] |}.

Definition foundation_type : FieldConfiguration.t :=
  with_state_options "home.address_state" foundation_type_options
    (field "home.foundation_type" "Foundation Type" it_dropdown title
       "exterior" home 9).

(** An excerpt of [FIELD_CONFIGURATIONS], in the order of the table. *)
Definition FIELD_CONFIGURATIONS : registry :=
  [ ("client.first_name", client_first_name);
    ("client.household_members[*].first_name", household_member_first_name);
    ("client.household_members[*].middle_name", household_member_middle_name);
    ("home.foundation_land_type", foundation_land_type) ].

Definition group (id name : string) (order : Q) (description : string)
    (defaultOpen : bool) (parentGroup : option string) : FieldGroup.t :=
  {| FieldGroup.id := id;
     FieldGroup.name := name;
     FieldGroup.order := order;
     FieldGroup.description := Some description;
     FieldGroup.defaultOpen := Some defaultOpen;
     FieldGroup.parentGroup := parentGroup;
     FieldGroup.isTemplate := None;
     FieldGroup.templatePattern := None;
     FieldGroup.dynamicNamePattern := None |}.

Definition template (id name : string) (order : Q)
    (templatePattern dynamicNamePattern : string) (defaultOpen : bool) : FieldGroup.t :=
  {| FieldGroup.id := id;
     FieldGroup.name := name;
     FieldGroup.order := order;
     FieldGroup.description := None;
     FieldGroup.defaultOpen := Some defaultOpen;
     FieldGroup.parentGroup := None;
     FieldGroup.isTemplate := Some true;
     FieldGroup.templatePattern := Some templatePattern;
     FieldGroup.dynamicNamePattern := Some dynamicNamePattern |}.

Definition household_member_template : FieldGroup.t :=
  template "household_member_template" "Household Members" 7
    "client.household_members[*]" "Household Member {index + 1}" false.

Definition additional_interests_template : FieldGroup.t :=
  template "additional_interests_template" "Additional Interest" (19 # 2)
    "home.additional_interests[*]" "Additional Interest {index + 1}" false.

Definition vehicle_template : FieldGroup.t :=
  template "vehicle_template" "Vehicle" 3
    "auto.vehicles[*]" "Vehicle {index + 1}" true.

(** A group as the materializer pushes it. *)
Definition dynamic (id name : string) (order : Q) (description : string) : FieldGroup.t :=
  {| FieldGroup.id := id;
     FieldGroup.name := name;
     FieldGroup.order := order;
     FieldGroup.description := Some description;
     FieldGroup.defaultOpen := None;
     FieldGroup.parentGroup := None;
     FieldGroup.isTemplate := None;
     FieldGroup.templatePattern := None;
     FieldGroup.dynamicNamePattern := None |}.

(** The groups of the auto section, as [FIELD_GROUPS] lists them. *)
Definition AUTO_GROUPS : group_registry :=
  [ ("auto_policy_information",
     group "auto_policy_information" "Policy Information" 1
       "General auto policy preferences and settings" true None);
    ("violations_claims",
     group "violations_claims" "Violations & Claims" 2
       "Driver violations and insurance claims history" false None);
    ("vehicle_template", vehicle_template);
    ("vehicle_details",
     group "vehicle_details" "Vehicle Details" 1
       "Basic vehicle information and specifications" true (Some "vehicle_template"));
    ("vehicle_ownership",
     group "vehicle_ownership" "Ownership & Registration" 2
       "Vehicle ownership and registration details" true (Some "vehicle_template"));
    ("vehicle_usage",
     group "vehicle_usage" "Vehicle Usage" 3
       "How the vehicle is used and driven" true (Some "vehicle_template"));
    ("vehicle_features",
     group "vehicle_features" "Features & Equipment" 4
       "Safety features and special equipment" false (Some "vehicle_template"));
    ("garaging_address",
     group "garaging_address" "Garaging Address" 5
       "Where the vehicle is primarily kept" false (Some "vehicle_template"));
    ("vehicle_coverages",
     group "vehicle_coverages" "Vehicle Coverages" 6
       "Coverage options for this vehicle" false (Some "vehicle_template"));
    ("current_insurance_details",
     group "current_insurance_details" "Current Insurance" 4
       "Current auto insurance carrier and policy details" true None) ].

(** A group whose parent is no group of the registry. *)
Definition orphan : FieldGroup.t :=
  group "towing_details" "Towing" 2 "Towing and roadside assistance" false
    (Some "roadside_template").

(** Groups whose parent is no group of the registry, but the name of a
    member of [Object.prototype]. *)
Definition constructor_child : FieldGroup.t :=
  group "towing_details" "Towing" 2 "Towing and roadside assistance" false
    (Some "constructor").

Definition toString_child : FieldGroup.t :=
  group "rental_details" "Rental" 3 "Rental reimbursement" false
    (Some "toString").

(** State-specific options with a list under the empty region code. *)
Definition blank_code_options : StateSpecificOptions.t :=
  {| StateSpecificOptions.byState := <["" := [opt "Slab" "Slab"]]> ∅;
     StateSpecificOptions.default := [opt "Other" "Other"] |}.

Definition blank_code_field : FieldConfiguration.t :=
  with_state_options "home.address_state" blank_code_options
    (field "home.foundation_type" "Foundation Type" it_dropdown title
       "exterior" home 9).

(** The hierarchy ordering example of the specification: top-level
    groups with the orders 3, 1, 2, and two children of the group ["1"]
    with the orders 20, 10. *)
Definition three_one_two : list FieldGroup.t :=
  [ group "3" "Three" 3 "" true None;
    group "1" "One" 1 "" true None;
    group "2" "Two" 2 "" true None;
    group "20" "Twenty" 20 "" true (Some "1");
    group "10" "Ten" 10 "" true (Some "1") ].

(** A group without a parent whose id is [__proto__]. *)
Definition proto_group : FieldGroup.t :=
  group "__proto__" "Prototype" 1 "" true None.

(** A data document with three vehicles, two additional interests and
    one household member. *)
Definition document : any :=
  VObj
    [ ("client",
       VObj [ ("current_address", VObj [ ("state", VStr "fl") ]);
              ("household_members", VArr [ VObj [ ("first_name", VStr "Ada") ] ]) ]);
      ("home",
       VObj [ ("property_address", VObj [ ("state", VStr "TX") ]);
              ("additional_interests",
               VArr [ VObj [ ("type", VStr "Mortgagee") ];
                      VObj [ ("type", VStr "Lienholder") ] ]) ]);
      ("auto",
       VObj [ ("vehicles",
               VArr [ VObj [ ("year", VNum 2019) ];
                      VObj [ ("year", VNum 2021) ];
                      VObj [ ("year", VNum 2023) ] ]) ]) ].

End Sample.

(** * The other helpers of [data-mappings.ts] *)

(** ** More of [String.prototype] *)

Module Text.

(** White space and line terminators among the 8-bit characters: tab,
    line feed, vertical tab, form feed, carriage return, space and the
    no-break space. *)
Definition is_white_space (c : ascii) : bool :=
  let n := nat_of_ascii c in
  ((9 <=? n)%nat && (n <=? 13)%nat) || (n =? 32)%nat || (n =? 160)%nat.

Fixpoint trimStart (s : string) : string :=
  match s with
  | EmptyString => EmptyString
  | String c rest => if is_white_space c then trimStart rest else s
  end.

Fixpoint trimEnd (s : string) : string :=
  match s with
  | EmptyString => EmptyString
  | String c rest =>
      match trimEnd rest with
      | EmptyString => if is_white_space c then EmptyString else String c EmptyString
      | kept => String c kept
      end
  end.

(** [String.prototype.trim] *)
Definition trim (s : string) : string := trimEnd (trimStart s).

(** The lower case of a character: of the letters [A] to [Z] and of the
    Latin-1 letters [À] to [Þ] the character 32 places after it. *)
Definition lower (c : ascii) : ascii :=
  let n := nat_of_ascii c in
  if ((65 <=? n)%nat && (n <=? 90)%nat)
     || ((192 <=? n)%nat && (n <=? 222)%nat && negb (n =? 215)%nat)
  then ascii_of_nat (n + 32) else c.

(** [String.prototype.toLowerCase] *)
Fixpoint toLowerCase (s : string) : string :=
  match s with
  | EmptyString => EmptyString
  | String c rest => String (lower c) (toLowerCase rest)
  end.

End Text.

(** ** State values *)

Definition US_STATE_OPTIONS : list DropdownOption.t :=
  [ opt "AL" "Alabama"; opt "AK" "Alaska"; opt "AZ" "Arizona";
    opt "AR" "Arkansas"; opt "CA" "California"; opt "CO" "Colorado";
    opt "CT" "Connecticut"; opt "DE" "Delaware"; opt "DC" "District of Columbia";
    opt "FL" "Florida"; opt "GA" "Georgia"; opt "HI" "Hawaii";
    opt "ID" "Idaho"; opt "IL" "Illinois"; opt "IN" "Indiana";
    opt "IA" "Iowa"; opt "KS" "Kansas"; opt "KY" "Kentucky";
    opt "LA" "Louisiana"; opt "ME" "Maine"; opt "MD" "Maryland";
    opt "MA" "Massachusetts"; opt "MI" "Michigan"; opt "MN" "Minnesota";
    opt "MS" "Mississippi"; opt "MO" "Missouri"; opt "MT" "Montana";
    opt "NE" "Nebraska"; opt "NV" "Nevada"; opt "NH" "New Hampshire";
    opt "NJ" "New Jersey"; opt "NM" "New Mexico"; opt "NY" "New York";
    opt "NC" "North Carolina"; opt "ND" "North Dakota"; opt "OH" "Ohio";
    opt "OK" "Oklahoma"; opt "OR" "Oregon"; opt "PA" "Pennsylvania";
    opt "RI" "Rhode Island"; opt "SC" "South Carolina"; opt "SD" "South Dakota";
    opt "TN" "Tennessee"; opt "TX" "Texas"; opt "UT" "Utah";
    opt "VT" "Vermont"; opt "VA" "Virginia"; opt "WA" "Washington";
    opt "WV" "West Virginia"; opt "WI" "Wisconsin"; opt "WY" "Wyoming" ].

(** [stateValue: string | null | undefined] is an [option string], [None]
    for [null] and [undefined]; so is the result, [None] for [null]. *)
Definition normalizeStateValue (stateValue : option string) : option string :=
  match stateValue with
  | None => None
  | Some value =>
      if negb (truthy_string stateValue) then None
      else
        let normalizedInput := Text.toLowerCase (Text.trim value) in
        let abbreviation :=
          if (String.length normalizedInput =? 2)%nat then
            let upperValue := Str.toUpperCase normalizedInput in
            match List.find
                    (fun option =>
                       bool_decide (Some (DropdownOption.value option) = upperValue))
                    US_STATE_OPTIONS with
            | Some _ => upperValue
            | None => None
            end
          else None in
        match abbreviation with
        | Some upperValue => Some upperValue
        | None =>
            let matchedState :=
              List.find (fun option =>
                           String.eqb (Text.toLowerCase (DropdownOption.label option))
                             normalizedInput)
                US_STATE_OPTIONS in
            match matchedState with
            | Some matched => Some (DropdownOption.value matched)
            | None => None
            end
        end
  end.

(** [stateValue || ''] *)
Definition or_empty (stateValue : option string) : string :=
  match stateValue with
  | Some value => value
  | None => EmptyString
  end.

Definition getStateDisplayLabel (stateValue : option string) : string :=
  if negb (truthy_string stateValue) then EmptyString
  else
    let normalizedValue := normalizeStateValue stateValue in
    if negb (truthy_string normalizedValue) then or_empty stateValue
    else
      let matchedState :=
        List.find (fun option =>
                     bool_decide (Some (DropdownOption.value option) = normalizedValue))
          US_STATE_OPTIONS in
      match matchedState with
      | Some matched => DropdownOption.label matched
      | None => or_empty stateValue
      end.

(** ** Material percentages *)

Module MaterialPercentage.
Record t : Type := mk
  { material : string;
    percentage : float }.
End MaterialPercentage.

Module ValidationResult.
Record t : Type := mk
  { isValid : bool;
    message : option string }.
End ValidationResult.

(** [item.percentage || 0]: the numbers [0], [-0] and [NaN] are falsy. *)
Definition percentage_or_zero (item : MaterialPercentage.t) : float :=
  let percentage := MaterialPercentage.percentage item in
  if PrimFloat.is_nan percentage || PrimFloat.is_zero percentage then 0%float
  else percentage.

(** [materials] is [None] for a [null] or [undefined] argument.  The
    percentages are doubles, added up from left to right as [reduce] does.
    The [Set] of the names is a finite set, whose size is the number of
    distinct names. *)
Definition validateMaterialPercentages (materials : option (list MaterialPercentage.t))
  : ValidationResult.t :=
  match materials with
  | None => ValidationResult.mk true None
  | Some materials =>
      if (List.length materials =? 0)%nat then ValidationResult.mk true None
      else
        let totalPercentage :=
          fold_left (fun sum item => (sum + percentage_or_zero item)%float)
            materials 0%float in
        if PrimFloat.ltb 100 totalPercentage
        then ValidationResult.mk false (Some "Total percentage cannot exceed 100%")
        else
          let materialNames := map MaterialPercentage.material materials in
          let uniqueMaterials : gset string := list_to_set materialNames in
          if negb (List.length materialNames =? size uniqueMaterials)%nat
          then ValidationResult.mk false (Some "Cannot have duplicate materials")
          else ValidationResult.mk true None
  end.

(** The total of the percentages as the source adds them up: from left
    to right in double precision, a percentage that is [NaN] counting as
    0. *)
Definition total_percentage (materials : list MaterialPercentage.t) : float :=
  fold_left (fun sum item => (sum + percentage_or_zero item)%float) materials 0%float.

(** ** Schemas of the claims arrays *)

(** The three schema tables, by name: the function returns one of these
    module constants, or [null]. *)
Inductive ArrayFieldSchema : Type :=
  | CLAIMS_FIELD_SCHEMA
  | PRIOR_CARRIERS_FIELD_SCHEMA
  | VIOLATIONS_CLAIMS_FIELD_SCHEMA.

Definition getClaimsArraySchema (fieldKey : string) : option ArrayFieldSchema :=
  if Str.includes "violations_claims" fieldKey then Some VIOLATIONS_CLAIMS_FIELD_SCHEMA
  else if Str.includes "claims" fieldKey && negb (Str.includes "prior_carriers" fieldKey)
  then Some CLAIMS_FIELD_SCHEMA
  else if Str.includes "prior_carriers" fieldKey then Some PRIOR_CARRIERS_FIELD_SCHEMA
  else None.

(** ** Fields by section and group *)

(** [FIELD_CONFIGURATIONS[fieldKey] || null] *)
Definition getFieldConfig (FIELD_CONFIGURATIONS : registry) (fieldKey : string)
  : resolution :=
  match assoc fieldKey FIELD_CONFIGURATIONS with
  | Some config => Resolved config
  | None => if inherited fieldKey then Member fieldKey else NotFound
  end.

Definition section_eqb (a b : Section_) : bool :=
  match a, b with
  | applicant, applicant | home, home | auto, auto => true
  | _, _ => false
  end.

(** [FIELD_GROUPS[field.group || '']?.order || 999]: the order of the
    group of the field; 999 when the field has no group, when its group is
    not in the registry (a member that the registry inherits has no
    [order]), and when the order of the group is 0. *)
Definition groupOrder (FIELD_GROUPS : group_registry) (field : FieldConfiguration.t) : Q :=
  match assoc (or_empty (FieldConfiguration.group field)) FIELD_GROUPS with
  | Some group =>
      if Qeq_bool (FieldGroup.order group) 0 then 999 else FieldGroup.order group
  | None => 999
  end.

(** The comparator of [getFieldsBySection]: by group order first, then
    by field order within the group. *)
Definition compareFields (FIELD_GROUPS : group_registry) (a b : FieldConfiguration.t) : Q :=
  let groupA := groupOrder FIELD_GROUPS a in
  let groupB := groupOrder FIELD_GROUPS b in
  if negb (Qeq_bool groupA groupB) then (groupA - groupB)%Q
  else (FieldConfiguration.order a - FieldConfiguration.order b)%Q.

Definition getFieldsBySection (FIELD_CONFIGURATIONS : registry)
    (FIELD_GROUPS : group_registry) (section : Section_) : list FieldConfiguration.t :=
  sort (compareFields FIELD_GROUPS)
    (List.filter (fun field => section_eqb (FieldConfiguration.section field) section)
       (map snd FIELD_CONFIGURATIONS)).

(** [field.group || 'ungrouped'] *)
Definition groupIdOf (field : FieldConfiguration.t) : string :=
  if truthy_string (FieldConfiguration.group field)
  then or_empty (FieldConfiguration.group field)
  else "ungrouped".

(** The field goes to the end of the bucket [groupId], a new and last
    bucket when there is none: the keys of [grouped] are kept in the
    order in which they were added. *)
Fixpoint appendField (groupId : string) (field : FieldConfiguration.t)
    (grouped : list (string * list FieldConfiguration.t))
  : list (string * list FieldConfiguration.t) :=
  match grouped with
  | [] => [(groupId, [field])]
  | (key, fields) :: rest =>
      if String.eqb key groupId then (key, (fields ++ [field])%list) :: rest
      else (key, fields) :: appendField groupId field rest
  end.

(** [if (!grouped[groupId]) grouped[groupId] = []; grouped[groupId].push(field)].
    For a group id that is no key of [grouped] but the name of a member
    that [grouped] inherits, [grouped[groupId]] is that member: it is
    truthy, no bucket is made, and it has no [push] method. *)
Definition pushField (groupId : string) (field : FieldConfiguration.t)
    (grouped : list (string * list FieldConfiguration.t))
  : completion (list (string * list FieldConfiguration.t)) :=
  match assoc groupId grouped with
  | Some _ => Normal (appendField groupId field grouped)
  | None =>
      if inherited groupId then Throw TypeError
      else Normal (appendField groupId field grouped)
  end.

Definition getFieldsGrouped (FIELD_CONFIGURATIONS : registry)
    (FIELD_GROUPS : group_registry) (section : Section_)
  : completion (list (string * list FieldConfiguration.t)) :=
  let fields := getFieldsBySection FIELD_CONFIGURATIONS FIELD_GROUPS section in
  fold_left
    (fun pushed field => grouped ← pushed; pushField (groupIdOf field) field grouped)
    fields (Normal []).

(** ** Fields by hierarchical groups *)

Module HierarchicalFields.
Record t : Type := mk
  { topLevel : list FieldGroup.t;
    hierarchy : gmap string (list FieldGroup.t);
    dynamicGroups : list FieldGroup.t }.
End HierarchicalFields.

Definition getFieldsHierarchical (FIELD_GROUPS : group_registry) (section : Section_)
    (auditData : any) : completion HierarchicalFields.t :=
  let templateGroups :=
    List.filter (fun g => truthy_bool (FieldGroup.isTemplate g)) (map snd FIELD_GROUPS) in
  dynamicGroups ← createDynamicGroups auditData templateGroups;
  built ← buildGroupHierarchy FIELD_GROUPS dynamicGroups;
  Normal {| HierarchicalFields.topLevel := Hierarchy.topLevel built;
            HierarchicalFields.hierarchy := Hierarchy.hierarchy built;
            HierarchicalFields.dynamicGroups := dynamicGroups |}.

(** ** Terms of the statements about sorting with a comparator *)

(** [a] may stand in front of [b]. *)
Definition precedes {A : Type} (compareFn : A -> A -> Q) (a b : A) : Prop :=
  (compareFn a b <= 0)%Q.

(** The comparator ranks [a] and [b] equal. *)
Definition tied {A : Type} (compareFn : A -> A -> Q) (a b : A) : bool :=
  Qle_bool (compareFn a b) 0 && Qle_bool (compareFn b a) 0.

(** The comparator orders the elements: of two elements one may stand in
    front of the other, and transitively so. *)
Definition consistent {A : Type} (compareFn : A -> A -> Q) : Prop :=
  (∀ a b, ¬ precedes compareFn a b → precedes compareFn b a)
  ∧ (∀ a b c, precedes compareFn a b → precedes compareFn b c → precedes compareFn a c).

(** A stable sort with the comparator: every element may stand in front
    of those after it, and the elements tied with any one element are the
    same as before, in the same sequence. *)
Definition stable_sort_of {A : Type} (compareFn : A -> A -> Q) (l sorted : list A) : Prop :=
  StronglySorted (precedes compareFn) sorted
  ∧ sorted ≡ₚ l
  ∧ ∀ x, List.filter (tied compareFn x) sorted = List.filter (tied compareFn x) l.

(** The fields of a bucket of [getFieldsGrouped]. *)
Definition bucket (groupId : string) (fields : list FieldConfiguration.t)
  : list FieldConfiguration.t :=
  List.filter (fun field => String.eqb (groupIdOf field) groupId) fields.

(** A dotted path with no regular-expression syntax in it: dots and
    characters that stand for themselves. *)
Fixpoint plain_path (s : string) : bool :=
  match s with
  | EmptyString => true
  | String c rest =>
      (Ascii.eqb c "." || negb (is_syntax_character c)) && plain_path rest
  end.


(** The pattern of such a path: the wildcard for a dot, the character
    itself otherwise. *)
Fixpoint plain_pattern (s : string) : list pattern_item :=
  match s with
  | EmptyString => []
  | String c rest =>
      (if Ascii.eqb c "." then PAny else PChar c) :: plain_pattern rest
  end.

(** * Properties *)

Open Scope list_scope.

(** ** Association lists *)

Lemma assoc_None {A : Type} (key : string) (entries : list (string * A)) :
  (∀ a, (key, a) ∉ entries) → assoc key entries = None.
Proof.
  induction entries as [|[k a] rest IH]; intros Hkey; simpl; [done|].
  destruct (String.eqb_spec k key) as [->|_].
  - exfalso. apply (Hkey a). left.
  - apply IH. intros a' Hin. apply (Hkey a'). by right.
Qed.

Lemma assoc_elem {A : Type} (key : string) (entries : list (string * A)) (a : A) :
  NoDup (entries.*1) → (key, a) ∈ entries → assoc key entries = Some a.
Proof.
  induction entries as [|[k a'] rest IH]; simpl; intros Hnd Hin.
  - by apply elem_of_nil in Hin.
  - apply NoDup_cons in Hnd as [Hk Hnd].
    apply elem_of_cons in Hin as [[= <- <-]|Hin].
    + by rewrite String.eqb_refl.
    + destruct (String.eqb_spec k key) as [->|_]; [|by apply IH].
      exfalso. apply Hk. apply list_elem_of_fmap. by exists (key, a).
Qed.

(** A key that is none of the keys of a table given in full. *)
Ltac no_entry :=
  let H := fresh in
  intros ? H;
  repeat (apply elem_of_cons in H as [H|H]; [discriminate H|]);
  by apply elem_of_nil in H.

(** ** The template resolver *)

Section TemplateResolver.

Variable dataFieldKey : string.

Lemma matchTemplates_passed_over (entries : registry) :
  Forall (passed_over dataFieldKey) entries →
  matchTemplates entries dataFieldKey = NotFound.
Proof.
  induction 1 as [|[templateKey config] rest Hentry _ IH]; simpl; [done|].
  destruct (Str.includes "[*]" templateKey) eqn:Htemplate; [|done].
  destruct (Hentry Htemplate) as (pattern & Hpattern & Htest).
  simpl in Hpattern. by rewrite Hpattern, Htest.
Qed.

Lemma matchTemplates_first (before after : registry) entry :
  Forall (passed_over dataFieldKey) before → matches dataFieldKey entry →
  matchTemplates (before ++ entry :: after) dataFieldKey
  = Resolved (instantiate dataFieldKey entry.2).
Proof.
  intros Hbefore [Htemplate (pattern & Hpattern & Htest)].
  induction Hbefore as [|[templateKey config] rest Hentry _ IH]; simpl.
  - destruct entry as [templateKey config]; simpl in *.
    by rewrite Htemplate, Hpattern, Htest.
  - destruct (Str.includes "[*]" templateKey) eqn:Hk; [|done].
    destruct (Hentry Hk) as (pattern' & Hpattern' & Htest').
    simpl in Hpattern'. by rewrite Hpattern', Htest'.
Qed.

End TemplateResolver.

(** C2: a key that is present verbatim in the field registry resolves to
    exactly the definition stored under it; its key and group are those
    of the stored definition, and no template is consulted. *)
Theorem exact_match_precedence (FIELD_CONFIGURATIONS : registry)
    (dataFieldKey : string) (config : FieldConfiguration.t) :
  NoDup (FIELD_CONFIGURATIONS.*1) →
  (dataFieldKey, config) ∈ FIELD_CONFIGURATIONS →
  getFieldConfigForDataField FIELD_CONFIGURATIONS dataFieldKey = Resolved config.
Proof.
  intros Hkeys Hentry. unfold getFieldConfigForDataField.
  by rewrite (assoc_elem _ _ _ Hkeys Hentry).
Qed.

Lemma exact_match_precedence_witness :
  getFieldConfigForDataField Sample.FIELD_CONFIGURATIONS
    "client.household_members[*].first_name"
  = Resolved Sample.household_member_first_name.
Proof.
  apply exact_match_precedence.
  - apply (bool_decide_unpack _). vm_compute. reflexivity.
  - right. left.
Defined.

(** C9 (as stated) fails: the key [constructor] is not in the field
    registry and matches no template pattern, and the resolver does not
    return [null]: [FIELD_CONFIGURATIONS['constructor']] is the function
    that the registry object inherits, and the exact lookup returns it. *)
Lemma inherited_key_found :
  (∀ config, ("constructor"%string, config) ∉ Sample.FIELD_CONFIGURATIONS)
  ∧ Forall (passed_over "constructor") Sample.FIELD_CONFIGURATIONS
  ∧ getFieldConfigForDataField Sample.FIELD_CONFIGURATIONS "constructor"
    = Member "constructor"
  ∧ Member "constructor" ≠ NotFound.
Proof.
  split; [no_entry|]. split; [|done].
  repeat constructor; intros Htemplate;
    first [discriminate Htemplate | eexists; split; reflexivity].
Qed.

(** C9 (amended): a data field key that is not in the field registry,
    that is not the name of a member that the registry inherits from
    [Object.prototype], and that the pattern of no template key matches
    resolves to NotFound. *)
Theorem non_matching_key (FIELD_CONFIGURATIONS : registry) (dataFieldKey : string) :
  (∀ config, (dataFieldKey, config) ∉ FIELD_CONFIGURATIONS) →
  inherited dataFieldKey = false →
  Forall (passed_over dataFieldKey) FIELD_CONFIGURATIONS →
  getFieldConfigForDataField FIELD_CONFIGURATIONS dataFieldKey = NotFound.
Proof.
  intros Hverbatim Hown Hpatterns. unfold getFieldConfigForDataField.
  rewrite (assoc_None _ _ Hverbatim), Hown.
  by apply matchTemplates_passed_over.
Qed.

Lemma non_matching_key_witness :
  getFieldConfigForDataField Sample.FIELD_CONFIGURATIONS
    "client.household_members[].first_name" = NotFound.
Proof.
  apply non_matching_key.
  - no_entry.
  - reflexivity.
  - repeat constructor; intros Htemplate;
      first [discriminate Htemplate | eexists; split; reflexivity].
Defined.

(** *** The index and the group of a resolved template *)

Lemma includes_unfold (searchString s : string) :
  Str.includes searchString s
  = String.prefix searchString s
    || match s with
       | EmptyString => false
       | String _ rest => Str.includes searchString rest
       end.
Proof. by destruct s. Qed.

Lemma replace_unfold (pattern replacement s : string) :
  Str.replace pattern replacement s
  = if String.prefix pattern s
    then (replacement ++ Str.drop (String.length pattern) s)%string
    else match s with
         | EmptyString => EmptyString
         | String c rest => String c (Str.replace pattern replacement rest)
         end.
Proof. by destruct s. Qed.

Lemma indexMatch_unfold (s : string) :
  indexMatch s
  = match Str.bracketed_digits s with
    | Some (digits, _) => Some digits
    | None => match s with
              | EmptyString => None
              | String _ rest => indexMatch rest
              end
    end.
Proof. by destruct s. Qed.

(** A string without the pattern is left as it is. *)
Lemma replace_absent (pattern replacement s : string) :
  Str.includes pattern s = false → Str.replace pattern replacement s = s.
Proof.
  induction s as [|c rest IH]; rewrite includes_unfold, replace_unfold;
    intros [Hprefix Hrest]%orb_false_iff; rewrite Hprefix; [done|].
  by rewrite IH.
Qed.

(** The replacement of [_template] is empty for the empty group id only,
    so that the [||] of the source never changes the result. *)
Lemma dynamic_group_replace (g : string) (index : N) :
  dynamic_group (Some g) index
  = Some (Str.replace "_template" ("_" ++ Str.ofNumber index) g).
Proof.
  unfold dynamic_group.
  destruct (truthy_string _) eqn:Hreplaced; [done|].
  f_equal. simpl in Hreplaced. apply negb_false_iff, String.eqb_eq in Hreplaced.
  rewrite Hreplaced. rewrite replace_unfold in Hreplaced.
  destruct (String.prefix "_template" g); [discriminate|].
  by destruct g.
Qed.

(** The pattern of a template key has a placeholder. *)
Lemma template_pattern_placeholder (templateKey : string) :
  ∀ skip pattern,
    template_pattern skip templateKey = Some pattern →
    Str.includes "[*]" (Str.drop skip templateKey) = true →
    PIndex ∈ pattern.
Proof.
  induction templateKey as [|c rest IH]; intros skip pattern Hpattern Hincludes.
  - by destruct skip.
  - destruct skip as [|skip]; [|by apply (IH skip)].
    cbn [template_pattern] in Hpattern. cbn [Str.drop] in Hincludes.
    destruct (placeholder_length (String c rest)) as [n|] eqn:Hlength.
    + apply fmap_Some in Hpattern as (pattern' & _ & ->). left.
    + assert (Str.includes "[*]" (Str.drop 0 rest) = true) as Hrest.
      { rewrite includes_unfold in Hincludes. unfold placeholder_length in Hlength.
        destruct (String.prefix "[*]" (String c rest)); [discriminate|].
        by destruct rest. }
      destruct (Ascii.eqb c "."); [|destruct (is_syntax_character c); [done|]];
        apply fmap_Some in Hpattern as (pattern' & Hpattern' & ->);
        right; by apply (IH 0%nat).
Qed.

(** A key that matches a pattern with a placeholder has a bracketed
    integer. *)
Lemma regex_test_indexMatch (pattern : list pattern_item) :
  ∀ s, regex_test pattern s = true → PIndex ∈ pattern → is_Some (indexMatch s).
Proof.
  induction pattern as [|item pattern IH]; intros s Htest Hin.
  - by apply elem_of_nil in Hin.
  - rewrite indexMatch_unfold.
    destruct (Str.bracketed_digits s) as [[digits rest]|] eqn:Hdigits; [done|].
    destruct item as [| |c']; simpl in Htest; [by rewrite Hdigits in Htest| |];
      (destruct s as [|c rest]; [done|]);
      apply andb_true_iff in Htest as [_ Htest];
      apply elem_of_cons in Hin as [[=]|Hin]; by apply IH.
Qed.

(** The name of an inherited member has no bracketed integer. *)
Lemma inherited_indexMatch (key : string) :
  inherited key = true → indexMatch key = None.
Proof.
  intros (name & Hname & ->%String.eqb_eq)%existsb_exists.
  simpl in Hname. repeat (destruct Hname as [<-|Hname]; [reflexivity|]). done.
Qed.

(** A key that a template matches is the name of no inherited member. *)
Lemma matches_inherited (dataFieldKey : string) (entry : string * FieldConfiguration.t) :
  matches dataFieldKey entry → inherited dataFieldKey = false.
Proof.
  intros [Htemplate (pattern & Hpattern & Htest)].
  assert (is_Some (indexMatch dataFieldKey)) as [digits Hdigits].
  { apply (regex_test_indexMatch pattern); [done|].
    by apply (template_pattern_placeholder entry.1 0%nat). }
  destruct (inherited dataFieldKey) eqn:Hinherited; [|done].
  apply inherited_indexMatch in Hinherited. congruence.
Qed.

(** A key with no entry of its own resolves to the first template that
    matches it. *)
Lemma resolve_first (before after : registry) (dataFieldKey : string)
    (entry : string * FieldConfiguration.t) :
  (∀ config, (dataFieldKey, config) ∉ before ++ entry :: after) →
  Forall (passed_over dataFieldKey) before →
  matches dataFieldKey entry →
  getFieldConfigForDataField (before ++ entry :: after) dataFieldKey
  = Resolved (instantiate dataFieldKey entry.2).
Proof.
  intros Hverbatim Hbefore Hentry. unfold getFieldConfigForDataField.
  rewrite (assoc_None _ _ Hverbatim), (matches_inherited _ _ Hentry).
  by apply matchTemplates_first.
Qed.

(** C1 (amended): for a data field key with no entry of its own that
    matches a template key, the resolver returns a copy of the first
    matching template definition with the key overwritten to the data
    field key; the index is the first bracketed integer of the data field
    key, and the group is the template's group id with the first
    occurrence of [_template], wherever it stands, replaced by
    [_<index>]; a group id that does not contain [_template] is left
    unchanged.  The template keys up to the matching one are made of
    bracketed placeholders, dots and characters without a meaning in a
    regular expression ([passed_over], [matches]), and the index is at
    most [MAX_SAFE_INTEGER]. *)
Theorem template_resolution (before after : registry)
    (templateKey dataFieldKey : string) (config : FieldConfiguration.t) :
  let FIELD_CONFIGURATIONS := before ++ (templateKey, config) :: after in
  (∀ c, (dataFieldKey, c) ∉ FIELD_CONFIGURATIONS) →
  Forall (passed_over dataFieldKey) before →
  matches dataFieldKey (templateKey, config) →
  (index_of dataFieldKey <= MAX_SAFE_INTEGER)%N →
  ∃ digits resolved,
    indexMatch dataFieldKey = Some digits
    ∧ getFieldConfigForDataField FIELD_CONFIGURATIONS dataFieldKey = Resolved resolved
    ∧ resolved
      = FieldConfiguration.with_key_group config dataFieldKey
          (FieldConfiguration.group resolved)
    ∧ FieldConfiguration.key resolved = dataFieldKey
    ∧ FieldConfiguration.group resolved
      = Str.replace "_template" ("_" ++ Str.ofNumber (Str.parseInt digits))
          <$> FieldConfiguration.group config
    ∧ (∀ g, FieldConfiguration.group config = Some g →
            Str.includes "_template" g = false →
            FieldConfiguration.group resolved = Some g).
Proof.
  intros FIELD_CONFIGURATIONS Hverbatim Hbefore Hentry _.
  assert (is_Some (indexMatch dataFieldKey)) as [digits Hdigits].
  { destruct Hentry as [Htemplate (pattern & Hpattern & Htest)].
    apply (regex_test_indexMatch pattern); [done|].
    by apply (template_pattern_placeholder templateKey 0%nat). }
  assert (FieldConfiguration.group (instantiate dataFieldKey config)
          = Str.replace "_template" ("_" ++ Str.ofNumber (Str.parseInt digits))
              <$> FieldConfiguration.group config) as Hgroup.
  { unfold instantiate, index_of. rewrite Hdigits. simpl.
    destruct (FieldConfiguration.group config) as [g|]; [|done].
    apply dynamic_group_replace. }
  exists digits, (instantiate dataFieldKey config).
  split; [done|]. split.
  { by apply (resolve_first before after dataFieldKey (templateKey, config)). }
  split; [done|]. split; [done|]. split; [done|].
  intros g Hg Habsent. rewrite Hgroup, Hg. simpl.
  by rewrite replace_absent.
Qed.

Lemma template_resolution_witness :
  ∃ digits resolved,
    indexMatch "client.household_members[12].middle_name" = Some digits
    ∧ getFieldConfigForDataField Sample.FIELD_CONFIGURATIONS
        "client.household_members[12].middle_name" = Resolved resolved
    ∧ resolved
      = FieldConfiguration.with_key_group Sample.household_member_middle_name
          "client.household_members[12].middle_name"
          (FieldConfiguration.group resolved)
    ∧ FieldConfiguration.key resolved = "client.household_members[12].middle_name"
    ∧ FieldConfiguration.group resolved
      = Str.replace "_template" ("_" ++ Str.ofNumber (Str.parseInt digits))
          <$> FieldConfiguration.group Sample.household_member_middle_name
    ∧ (∀ g, FieldConfiguration.group Sample.household_member_middle_name = Some g →
            Str.includes "_template" g = false →
            FieldConfiguration.group resolved = Some g).
Proof.
  apply (template_resolution
           [("client.first_name"%string, Sample.client_first_name);
            ("client.household_members[*].first_name"%string,
             Sample.household_member_first_name)]
           [("home.foundation_land_type"%string, Sample.foundation_land_type)]
           "client.household_members[*].middle_name"
           "client.household_members[12].middle_name"
           Sample.household_member_middle_name).
  - no_entry.
  - repeat constructor; intros Htemplate;
      first [discriminate Htemplate | eexists; split; reflexivity].
  - split; [reflexivity|]. eexists. split; reflexivity.
  - by vm_compute.
Defined.

(** What the witness resolves to: the middle name of the member at index
    12, in the group [household_member_12]. *)
Example resolve_household_member_12 :
  getFieldConfigForDataField Sample.FIELD_CONFIGURATIONS
    "client.household_members[12].middle_name"
  = Resolved
      (FieldConfiguration.with_key_group Sample.household_member_middle_name
         "client.household_members[12].middle_name" (Some "household_member_12")).
Proof. reflexivity. Qed.

(** On the group ids of the registry the two rewritings agree. *)
Example suffix_rewrite_household_member :
  suffix_rewrite (Some "household_member_template"%string) 12
  = Some "household_member_12"%string
  ∧ dynamic_group (Some "household_member_template"%string) 12
    = Some "household_member_12"%string.
Proof. split; reflexivity. Qed.

(** The first occurrence is rewritten, wherever it stands. *)
Example resolve_vehicle_note :
  getFieldConfigForDataField
    [("auto.vehicles[*].note"%string, Sample.vehicle_note)] "auto.vehicles[2].note"
  = Resolved
      (FieldConfiguration.with_key_group Sample.vehicle_note
         "auto.vehicles[2].note" (Some "vehicle_2_notes"%string)).
Proof. reflexivity. Qed.

(** C1 (as stated) fails: the template [auto.vehicles[*].note] has the
    group id [vehicle_template_notes], which does not end with
    [_template]; the key [auto.vehicles[2].note] resolves to the group
    [vehicle_2_notes], not to the unchanged id. *)
Lemma suffix_rewrite_claim_refuted : ¬ suffix_rewrite_claim.
Proof.
  intros Hclaim.
  specialize (Hclaim [] [] "auto.vehicles[*].note"%string
                "auto.vehicles[2].note"%string Sample.vehicle_note).
  simpl in Hclaim.
  assert (Resolved
            (FieldConfiguration.with_key_group Sample.vehicle_note
               "auto.vehicles[2].note" (Some "vehicle_2_notes"%string))
          = Resolved
              (FieldConfiguration.with_key_group Sample.vehicle_note
                 "auto.vehicles[2].note" (Some "vehicle_template_notes"%string)))
    as [=].
  apply Hclaim.
  - no_entry.
  - constructor.
  - split; [reflexivity|]. eexists. split; reflexivity.
Qed.

(** *** Dots of a template key *)

Lemma regex_test_char (c : ascii) (pattern : list pattern_item) (s : string) :
  regex_test (PChar c :: pattern) (String c s) = regex_test pattern s.
Proof. simpl. by rewrite Ascii.eqb_refl. Qed.

Lemma regex_test_any (c : ascii) (pattern : list pattern_item) (s : string) :
  is_line_terminator c = false →
  regex_test (PAny :: pattern) (String c s) = regex_test pattern s.
Proof. intros Hc. simpl. by rewrite Hc. Qed.

Lemma regex_test_index (pattern : list pattern_item) (s digits rest : string) :
  Str.bracketed_digits s = Some (digits, rest) →
  regex_test (PIndex :: pattern) s = regex_test pattern rest.
Proof. intros Hs. simpl. by rewrite Hs. Qed.

Lemma bracketed_digits_nondigit (c d : ascii) (s : string) :
  Str.is_digit d = false → Str.bracketed_digits (String c (String d s)) = None.
Proof.
  intros Hd. unfold Str.bracketed_digits.
  destruct (Ascii.eqb_spec c "[") as [->|Hc].
  - cbn [Str.span_digits]. by rewrite Hd.
  - destruct c as [[] [] [] [] [] [] [] []]; try reflexivity. by destruct Hc.
Qed.

Lemma indexMatch_skip (c : ascii) (s : string) :
  Str.bracketed_digits (String c s) = None →
  indexMatch (String c s) = indexMatch s.
Proof. intros Hc. rewrite indexMatch_unfold. by rewrite Hc. Qed.

(** C10: the dots of a template key are not escaped and match any
    character that is not a line terminator.  When
    [client.household_members[*].first_name] is the first template key of
    the registry, as it is in the repository, a data field key that
    differs from [client.household_members[0].first_name] at the two dot
    positions only ([clientXhousehold_members[0]Xfirst_name] for one) and
    has no entry of its own resolves to that template's definition, not
    to NotFound. *)
Theorem dot_matches_any_character (before after : registry)
    (config : FieldConfiguration.t) (x y : ascii) :
  let dataFieldKey :=
    ("client" ++ String x ("household_members[0]" ++ String y "first_name"))%string in
  let FIELD_CONFIGURATIONS :=
    before ++ ("client.household_members[*].first_name"%string, config) :: after in
  is_line_terminator x = false →
  is_line_terminator y = false →
  Forall (λ entry, Str.includes "[*]" entry.1 = false) before →
  (∀ c, (dataFieldKey, c) ∉ FIELD_CONFIGURATIONS) →
  getFieldConfigForDataField FIELD_CONFIGURATIONS dataFieldKey
  = Resolved
      (FieldConfiguration.with_key_group config dataFieldKey
         (Str.replace "_template" "_0" <$> FieldConfiguration.group config)).
Proof.
  intros dataFieldKey FIELD_CONFIGURATIONS Hx Hy Hbefore Hverbatim.
  unfold FIELD_CONFIGURATIONS.
  rewrite (resolve_first before after dataFieldKey
             ("client.household_members[*].first_name"%string, config)).
  - f_equal. unfold instantiate. f_equal. simpl.
    assert (index_of dataFieldKey = 0%N) as ->.
    { unfold index_of, dataFieldKey. cbv [String.append].
      do 6 (rewrite indexMatch_skip by reflexivity).
      rewrite indexMatch_skip by (by apply bracketed_digits_nondigit).
      do 17 (rewrite indexMatch_skip by reflexivity).
      reflexivity. }
    destruct (FieldConfiguration.group config) as [g|]; [|done].
    apply dynamic_group_replace.
  - done.
  - eapply Forall_impl; [exact Hbefore|].
    intros entry Hentry Htemplate. congruence.
  - split; [reflexivity|]. eexists. split; [reflexivity|].
    unfold dataFieldKey. cbv [String.append].
    rewrite !regex_test_char. rewrite (regex_test_any x) by done.
    rewrite !regex_test_char.
    rewrite (regex_test_index _ _ "0" (String y "first_name")) by reflexivity.
    rewrite (regex_test_any y) by done.
    rewrite !regex_test_char. reflexivity.
Qed.

Lemma dot_matches_any_character_witness :
  getFieldConfigForDataField Sample.FIELD_CONFIGURATIONS
    "clientXhousehold_members[0]Xfirst_name"
  = Resolved
      (FieldConfiguration.with_key_group Sample.household_member_first_name
         "clientXhousehold_members[0]Xfirst_name" (Some "household_member_0"%string)).
Proof.
  apply (dot_matches_any_character
           [("client.first_name"%string, Sample.client_first_name)]
           [("client.household_members[*].middle_name"%string,
             Sample.household_member_middle_name);
            ("home.foundation_land_type"%string, Sample.foundation_land_type)]
           Sample.household_member_first_name "X" "X").
  - reflexivity.
  - reflexivity.
  - repeat constructor.
  - no_entry.
Defined.

(** *** Round trip through a template *)

Lemma append_cons (c : ascii) (s t : string) :
  (String c s ++ t)%string = String c (s ++ t)%string.
Proof. reflexivity. Qed.

Lemma append_empty (t : string) : (EmptyString ++ t)%string = t.
Proof. reflexivity. Qed.

Lemma append_empty_r (s : string) : (s ++ EmptyString)%string = s.
Proof. induction s as [|c s IH]; [done|]. by rewrite append_cons, IH. Qed.

(** The decimal string of a number is a run of digits. *)
Lemma span_digits_uint (d : Decimal.uint) (rest : string) :
  Str.span_digits (NilEmpty.string_of_uint d ++ rest)%string
  = ((NilEmpty.string_of_uint d ++ (Str.span_digits rest).1)%string,
     (Str.span_digits rest).2).
Proof.
  induction d; cbn [NilEmpty.string_of_uint];
    rewrite ?append_cons, ?append_empty; [by destruct (Str.span_digits rest)|..];
    cbn [Str.span_digits];
    match goal with
    | |- context [Str.is_digit ?c] => change (Str.is_digit c) with true
    end;
    cbv iota; by rewrite IHd.
Qed.

Lemma to_uint_nonnil (n : N) : N.to_uint n ≠ Decimal.Nil.
Proof. destruct n; [done|]. apply DecimalPos.Unsigned.to_uint_nonnil. Qed.

Lemma parseInt_ofNumber (n : N) : Str.parseInt (Str.ofNumber n) = n.
Proof.
  unfold Str.parseInt, Str.ofNumber.
  replace (NilEmpty.string_of_uint (N.to_uint n))
    with (NilZero.string_of_uint (N.to_uint n)).
  - rewrite NilZero.usu by apply to_uint_nonnil. apply DecimalN.Unsigned.of_to.
  - unfold NilZero.string_of_uint. pose proof (to_uint_nonnil n).
    by destruct (N.to_uint n).
Qed.

Lemma ofNumber_digits (n : N) :
  ∃ d ds, Str.ofNumber n = String d ds ∧ Str.is_digit d = true.
Proof.
  unfold Str.ofNumber. pose proof (to_uint_nonnil n) as Hn.
  destruct (N.to_uint n); [done|..]; simpl; by eauto.
Qed.

Lemma bracketed_digits_ofNumber (n : N) (rest : string) :
  Str.bracketed_digits (String "[" (Str.ofNumber n ++ String "]" rest))
  = Some (Str.ofNumber n, rest).
Proof.
  unfold Str.bracketed_digits.
  unfold Str.ofNumber at 1. rewrite span_digits_uint.
  destruct (ofNumber_digits n) as (d & ds & Hn & _). fold (Str.ofNumber n).
  rewrite Hn. rewrite !append_cons. cbn [Str.span_digits].
  change (Str.is_digit "]") with false. cbv iota. cbn [fst snd].
  by rewrite append_empty_r.
Qed.

Lemma string_prefix_cons (a b : ascii) (s1 s2 : string) :
  String.prefix (String a s1) (String b s2)
  = if ascii_dec a b then String.prefix s1 s2 else false.
Proof. reflexivity. Qed.

(** [_template] does not overlap itself: in front of a suffix
    [_template] it can only start within what precedes the suffix. *)
Lemma prefix_template_straddle (s : string) :
  s ≠ EmptyString →
  String.prefix "_template" (s ++ "_template")%string = true →
  String.prefix "_template" s = true.
Proof.
  intros Hs.
  do 9 (destruct s as [|? s];
        [first [done
               |rewrite ?append_cons, ?append_empty; intros Hprefix; exfalso;
                repeat (rewrite string_prefix_cons in Hprefix;
                        destruct (ascii_dec _ _) as [Hchar|_];
                        [try discriminate Hchar|discriminate Hprefix])]|]).
  rewrite !append_cons, !string_prefix_cons.
  repeat (destruct (ascii_dec _ _); [|done]). intros _. by destruct s.
Qed.

(** Where [_template] occurs as the suffix only, the first occurrence is
    the suffix: the resolver then does what the specification says. *)
Lemma replace_suffix (base replacement : string) :
  Str.includes "_template" base = false →
  Str.replace "_template" replacement (base ++ "_template")%string
  = (base ++ replacement)%string.
Proof.
  induction base as [|c base IH]; intros Habsent.
  - rewrite !append_empty, replace_unfold. simpl. apply append_empty_r.
  - rewrite includes_unfold in Habsent.
    apply orb_false_iff in Habsent as [Hprefix Habsent].
    rewrite replace_unfold.
    destruct (String.prefix "_template" (String c base ++ "_template")%string)
      eqn:Hstraddle.
    + apply prefix_template_straddle in Hstraddle; [congruence|done].
    + rewrite !append_cons. by rewrite IH.
Qed.

(** ** The state option resolver *)

Lemma getNestedValue_undefined (keys : list string) :
  fold_left
    (λ current key,
       if truthy current
       then match get current key with
            | VUndefined => VUndefined
            | found => found
            end
       else VUndefined)
    keys VUndefined = VUndefined.
Proof. by induction keys. Qed.

(** Reading a path that leads to a value gives that value. *)
Lemma value_at_reduce (data : any) (keys : list string) (v : any) :
  value_at data keys v →
  fold_left
    (λ current key,
       if truthy current
       then match get current key with
            | VUndefined => VUndefined
            | found => found
            end
       else VUndefined)
    keys data = v.
Proof.
  induction 1 as [v|properties key keys child v Hchild _ IH]; [done|].
  cbn [fold_left truthy get]. rewrite Hchild. by destruct child.
Qed.

(** Reading a path that is missing gives [undefined], or the [null] that
    the path ends at. *)
Lemma missing_at_reduce (data : any) (keys : list string) :
  missing_at data keys →
  let found :=
    fold_left
      (λ current key,
         if truthy current
         then match get current key with
              | VUndefined => VUndefined
              | found => found
              end
         else VUndefined)
      keys data in
  found = VUndefined ∨ found = VNull.
Proof.
  induction 1 as [keys|keys|properties key keys Hkey _
                 |properties key keys child Hchild _ IH]; cbv zeta.
  - destruct keys; simpl; [by right|]. left. apply getNestedValue_undefined.
  - left. apply getNestedValue_undefined.
  - cbn [fold_left truthy get]. rewrite Hkey. left. apply getNestedValue_undefined.
  - cbn [fold_left truthy get]. rewrite Hchild. by destruct child.
Qed.

Lemma value_at_getNestedValue (data : any) (path : string) (v : any) :
  value_at data (Str.split "." path) v → getNestedValue data path = v.
Proof. apply value_at_reduce. Qed.

Lemma missing_at_getNestedValue (data : any) (path : string) :
  missing_at data (Str.split "." path) →
  getNestedValue data path = VUndefined ∨ getNestedValue data path = VNull.
Proof. apply missing_at_reduce. Qed.

(** *** Upper-cased strings *)

Lemma upper_has_lower (c : ascii) (first : string) :
  Str.upper c = Some first → Str.has_lower first = false ∧ first ≠ EmptyString.
Proof.
  destruct c as [[] [] [] [] [] [] [] []]; vm_compute;
    first [discriminate | by intros [= <-]].
Qed.

Lemma has_lower_app (s t : string) :
  Str.has_lower (s ++ t) = Str.has_lower s || Str.has_lower t.
Proof.
  induction s as [|c s IH]; [done|].
  rewrite append_cons. cbn [Str.has_lower]. by rewrite IH, orb_assoc.
Qed.

(** An upper-cased string has none of the letters [a] to [z]. *)
Lemma toUpperCase_has_lower (s code : string) :
  Str.toUpperCase s = Some code → Str.has_lower code = false.
Proof.
  revert code. induction s as [|c rest IH]; intros code; simpl.
  - by intros [= <-].
  - destruct (Str.upper c) as [first|] eqn:Hfirst; [|done].
    destruct (Str.toUpperCase rest) as [others|]; [|done].
    intros [= <-]. rewrite has_lower_app, (IH others eq_refl).
    by destruct (upper_has_lower c first Hfirst) as [-> _].
Qed.

(** No upper-cased string is the key [default], and none is the name of
    a member that the options object inherits. *)
Lemma toUpperCase_not_default (s code : string) :
  Str.toUpperCase s = Some code → String.eqb code "default" = false.
Proof.
  intros Hcode%toUpperCase_has_lower. apply String.eqb_neq. by intros ->.
Qed.

Lemma toUpperCase_not_inherited (s code : string) :
  Str.toUpperCase s = Some code → inherited code = false.
Proof.
  intros Hcode%toUpperCase_has_lower.
  destruct (inherited code) eqn:Hinherited; [|done].
  apply existsb_exists in Hinherited as (name & Hname & ->%String.eqb_eq).
  simpl in Hname. repeat (destruct Hname as [<-|Hname]; [discriminate Hcode|]). done.
Qed.

(** The upper case of a string is empty for the empty string only. *)
Lemma toUpperCase_empty (s : string) :
  Str.toUpperCase s = Some EmptyString ↔ s = EmptyString.
Proof.
  split; [|by intros ->]. destruct s as [|c rest]; [done|]. simpl.
  destruct (Str.upper c) as [first|] eqn:Hfirst; [|done].
  destruct (Str.toUpperCase rest) as [others|]; [|done].
  destruct (upper_has_lower c first Hfirst) as [_ Hne].
  intros [= Hempty]. by destruct first.
Qed.

Section StateOptions.

Variable fieldConfig : FieldConfiguration.t.
Variable stateSpecificOptions : StateSpecificOptions.t.
Variable dependsOnStateFrom : string.
Variable auditData : any.

Hypothesis no_static_options : FieldConfiguration.options fieldConfig = None.
Hypothesis state_options :
  FieldConfiguration.stateSpecificOptions fieldConfig = Some stateSpecificOptions.
Hypothesis state_path :
  FieldConfiguration.dependsOnStateFrom fieldConfig = Some dependsOnStateFrom.
Hypothesis state_path_set : dependsOnStateFrom ≠ EmptyString.

Lemma getFieldOptions_state :
  getFieldOptions fieldConfig auditData
  = stateCode ← optional_toUpperCase (getNestedValue auditData dependsOnStateFrom);
    match stateCode with
    | Some (Some code) =>
        if truthy_string (Some code) then
          match StateSpecificOptions.lookup stateSpecificOptions code with
          | Some options => Normal options
          | None => Normal (StateSpecificOptions.default stateSpecificOptions)
          end
        else Normal (StateSpecificOptions.default stateSpecificOptions)
    | Some None | None => Normal (StateSpecificOptions.default stateSpecificOptions)
    end.
Proof.
  unfold getFieldOptions.
  rewrite no_static_options, state_options, state_path.
  apply String.eqb_neq in state_path_set. simpl. by rewrite state_path_set.
Qed.

(** A string at the state path gives the list of its upper-cased code,
    when that is a non-empty key of the map, and the default list
    otherwise. *)
Lemma getFieldOptions_string (s : string) :
  getNestedValue auditData dependsOnStateFrom = VStr s →
  getFieldOptions fieldConfig auditData
  = Normal
      match Str.toUpperCase s with
      | Some code =>
          if String.eqb code EmptyString
          then StateSpecificOptions.default stateSpecificOptions
          else default (StateSpecificOptions.default stateSpecificOptions)
                 (StateSpecificOptions.byState stateSpecificOptions !! code)
      | None => StateSpecificOptions.default stateSpecificOptions
      end.
Proof.
  intros Hvalue. rewrite getFieldOptions_state, Hvalue. simpl.
  destruct (Str.toUpperCase s) as [code|] eqn:Hcode; [|done]. simpl.
  destruct (String.eqb code EmptyString); simpl; [done|].
  unfold StateSpecificOptions.lookup. rewrite (toUpperCase_not_default s code Hcode).
  by destruct (_ !! code).
Qed.

(** An absent value gives the default list. *)
Lemma getFieldOptions_absent :
  getNestedValue auditData dependsOnStateFrom = VUndefined
  ∨ getNestedValue auditData dependsOnStateFrom = VNull →
  getFieldOptions fieldConfig auditData
  = Normal (StateSpecificOptions.default stateSpecificOptions).
Proof. rewrite getFieldOptions_state. by intros [->| ->]. Qed.

(** A value at the state path that is neither absent nor a string makes
    the call throw. *)
Lemma getFieldOptions_throws :
  match getNestedValue auditData dependsOnStateFrom with
  | VBool _ | VNum _ | VArr _ | VObj _ => True
  | _ => False
  end →
  getFieldOptions fieldConfig auditData = Throw TypeError.
Proof.
  rewrite getFieldOptions_state.
  by destruct (getNestedValue auditData dependsOnStateFrom).
Qed.

(** An absent value and a string make it return a list of the field. *)
Lemma getFieldOptions_returns :
  match getNestedValue auditData dependsOnStateFrom with
  | VUndefined | VNull | VStr _ => True
  | _ => False
  end →
  ∃ options,
    getFieldOptions fieldConfig auditData = Normal options
    ∧ (options = StateSpecificOptions.default stateSpecificOptions
       ∨ ∃ code, StateSpecificOptions.byState stateSpecificOptions !! code
                 = Some options).
Proof.
  destruct (getNestedValue auditData dependsOnStateFrom) as [| | | |s| |] eqn:Hvalue;
    try done; intros _.
  - rewrite getFieldOptions_absent by by left. eauto.
  - rewrite getFieldOptions_absent by by right. eauto.
  - rewrite (getFieldOptions_string s Hvalue). eexists. split; [done|].
    destruct (Str.toUpperCase s) as [code|]; [|by left].
    destruct (String.eqb code EmptyString); [by left|].
    destruct (_ !! code) eqn:Hcode; simpl; eauto.
Qed.

End StateOptions.

(** C3 (as stated) fails for the empty region code: the field below has
    a list under the key [''], the data context has the empty string at
    the state path, its upper case is that key of the map, and the
    resolver returns the default list: [stateCode && ...] takes an empty
    code for no code. *)
Lemma empty_code_default :
  value_at (VObj [("home"%string, VObj [("address_state"%string, VStr "")])])
    (Str.split "." "home.address_state") (VStr "")
  ∧ Str.toUpperCase "" = Some ""%string
  ∧ StateSpecificOptions.byState Sample.blank_code_options !! ""%string
    = Some [opt "Slab" "Slab"]
  ∧ getFieldOptions Sample.blank_code_field
      (VObj [("home"%string, VObj [("address_state"%string, VStr "")])])
    = Normal [opt "Other" "Other"].
Proof.
  split; [|by repeat split].
  eapply value_below; [reflexivity|]. eapply value_below; [reflexivity|].
  apply value_here.
Qed.

(** C3 (amended): a field definition without static options and with
    both [stateSpecificOptions] and [dependsOnStateFrom] set (the path is
    not the empty string) resolves, for a data context in which the
    dotted path leads through the own properties of nested objects,

    - to the list mapped to the upper-cased region code read at the path,
      when that code is a key of the map and not empty;
    - to the default list when the string read at the path is empty or
      its upper case is no key of the map;
    - to the default list when the path is missing from the data
      context. *)
Theorem state_fallback (fieldConfig : FieldConfiguration.t)
    (stateSpecificOptions : StateSpecificOptions.t) (dependsOnStateFrom : string)
    (auditData : any) :
  FieldConfiguration.options fieldConfig = None →
  FieldConfiguration.stateSpecificOptions fieldConfig = Some stateSpecificOptions →
  FieldConfiguration.dependsOnStateFrom fieldConfig = Some dependsOnStateFrom →
  dependsOnStateFrom ≠ EmptyString →
  (∀ s code options,
     value_at auditData (Str.split "." dependsOnStateFrom) (VStr s) →
     Str.toUpperCase s = Some code →
     code ≠ EmptyString →
     StateSpecificOptions.byState stateSpecificOptions !! code = Some options →
     getFieldOptions fieldConfig auditData = Normal options)
  ∧ (∀ s,
       value_at auditData (Str.split "." dependsOnStateFrom) (VStr s) →
       s = EmptyString
       ∨ (∀ code, Str.toUpperCase s = Some code →
                  StateSpecificOptions.byState stateSpecificOptions !! code = None) →
       getFieldOptions fieldConfig auditData
       = Normal (StateSpecificOptions.default stateSpecificOptions))
  ∧ (missing_at auditData (Str.split "." dependsOnStateFrom) →
     getFieldOptions fieldConfig auditData
     = Normal (StateSpecificOptions.default stateSpecificOptions)).
Proof.
  intros Hoptions Hstate Hpath Hset.
  split; [|split].
  - intros s code options Hvalue%value_at_getNestedValue Hupper Hcode Hlist.
    rewrite (getFieldOptions_string _ _ _ _ Hoptions Hstate Hpath Hset s Hvalue).
    rewrite Hupper, Hlist. apply String.eqb_neq in Hcode. by rewrite Hcode.
  - intros s Hvalue%value_at_getNestedValue Hcode.
    rewrite (getFieldOptions_string _ _ _ _ Hoptions Hstate Hpath Hset s Hvalue).
    destruct Hcode as [->|Hcode]; [done|].
    destruct (Str.toUpperCase s) as [code|]; [|done].
    rewrite (Hcode code eq_refl). by destruct (String.eqb code EmptyString).
  - intros Hmissing%missing_at_getNestedValue.
    by apply (getFieldOptions_absent _ _ _ _ Hoptions Hstate Hpath Hset).
Qed.

Lemma state_fallback_witness :
  (∀ s code options,
     value_at Sample.document (Str.split "." "client.current_address.state") (VStr s) →
     Str.toUpperCase s = Some code →
     code ≠ EmptyString →
     StateSpecificOptions.byState Sample.roof_type_options !! code = Some options →
     getFieldOptions
       (Sample.with_state_options "client.current_address.state"
          Sample.roof_type_options Sample.roof_type) Sample.document
     = Normal options)
  ∧ (∀ s,
       value_at Sample.document (Str.split "." "client.current_address.state") (VStr s) →
       s = EmptyString
       ∨ (∀ code, Str.toUpperCase s = Some code →
                  StateSpecificOptions.byState Sample.roof_type_options !! code = None) →
       getFieldOptions
         (Sample.with_state_options "client.current_address.state"
            Sample.roof_type_options Sample.roof_type) Sample.document
       = Normal (StateSpecificOptions.default Sample.roof_type_options))
  ∧ (missing_at Sample.document (Str.split "." "client.current_address.state") →
     getFieldOptions
       (Sample.with_state_options "client.current_address.state"
          Sample.roof_type_options Sample.roof_type) Sample.document
     = Normal (StateSpecificOptions.default Sample.roof_type_options)).
Proof.
  apply (state_fallback
           (Sample.with_state_options "client.current_address.state"
              Sample.roof_type_options Sample.roof_type)
           Sample.roof_type_options "client.current_address.state" Sample.document).
  - reflexivity.
  - reflexivity.
  - reflexivity.
  - discriminate.
Defined.

(** The three cases of the specification, on the roof type field of the
    guide (codes FL, CA and default): ["fl"] gives the FL list, ["TX"]
    and a missing state give the default list. *)
Example roof_type_fl :
  getFieldOptions Sample.roof_type
    (VObj [("home", VObj [("property_address", VObj [("state", VStr "fl")])])])
  = Normal [opt "tile" "Tile"; opt "metal" "Metal";
            opt "comp_shingle" "Composition Shingle"].
Proof. reflexivity. Qed.

Example roof_type_tx :
  getFieldOptions Sample.roof_type Sample.document
  = Normal [opt "comp_shingle" "Composition Shingle"; opt "asphalt" "Asphalt"].
Proof. reflexivity. Qed.

Example roof_type_missing :
  getFieldOptions Sample.roof_type (VObj [("home", VObj [])])
  = Normal [opt "comp_shingle" "Composition Shingle"; opt "asphalt" "Asphalt"].
Proof. reflexivity. Qed.

(** C4 (as stated) fails: [getFieldOptions] can throw.  The field
    [home.foundation_type] reads its state from [home.address_state];
    when the document holds a number there,
    [stateFieldValue?.toUpperCase()] calls a method that numbers do not
    have, and the call ends in a [TypeError]. *)
Lemma non_string_state_throws :
  getNestedValue (VObj [("home"%string, VObj [("address_state"%string, VNum 33)])])
    "home.address_state" = VNum 33
  ∧ getFieldOptions Sample.foundation_type
      (VObj [("home"%string, VObj [("address_state"%string, VNum 33)])])
    = Throw TypeError.
Proof. split; reflexivity. Qed.

(** C4 (amended): for every field definition and every data context in
    which the [dependsOnStateFrom] path leads through the own properties
    of nested objects to a string, or is missing from the data context
    ([null], [undefined], or an object without the next segment on the
    way, the segment being the name of no inherited member),
    [getFieldOptions] returns: the static options list, a state-specific
    list or the default list, or the empty list. *)
Theorem state_options_return (fieldConfig : FieldConfiguration.t) (auditData : any) :
  (∀ dependsOnStateFrom,
     FieldConfiguration.dependsOnStateFrom fieldConfig = Some dependsOnStateFrom →
     missing_at auditData (Str.split "." dependsOnStateFrom)
     ∨ ∃ s, value_at auditData (Str.split "." dependsOnStateFrom) (VStr s)) →
  ∃ options,
    getFieldOptions fieldConfig auditData = Normal options
    ∧ (FieldConfiguration.options fieldConfig = Some options
       ∨ (∃ stateSpecificOptions,
            FieldConfiguration.stateSpecificOptions fieldConfig
            = Some stateSpecificOptions
            ∧ (options = StateSpecificOptions.default stateSpecificOptions
               ∨ ∃ code, StateSpecificOptions.byState stateSpecificOptions !! code
                         = Some options))
       ∨ options = []).
Proof.
  intros Hvalue.
  destruct (FieldConfiguration.options fieldConfig) as [options|] eqn:Hoptions.
  { exists options. unfold getFieldOptions. rewrite Hoptions. eauto. }
  destruct (FieldConfiguration.stateSpecificOptions fieldConfig)
    as [stateSpecificOptions|] eqn:Hstate;
    [|exists []; unfold getFieldOptions; rewrite Hoptions, Hstate; eauto].
  destruct (FieldConfiguration.dependsOnStateFrom fieldConfig)
    as [dependsOnStateFrom|] eqn:Hpath;
    [|exists []; unfold getFieldOptions; rewrite Hoptions, Hstate, Hpath; eauto].
  destruct (String.eqb_spec dependsOnStateFrom EmptyString) as [->|Hset].
  { exists []. unfold getFieldOptions. rewrite Hoptions, Hstate, Hpath. eauto. }
  destruct (getFieldOptions_returns fieldConfig stateSpecificOptions
              dependsOnStateFrom auditData Hoptions Hstate Hpath Hset)
    as (options & Hreturns & Hlist).
  { destruct (Hvalue dependsOnStateFrom eq_refl)
      as [[-> | ->]%missing_at_getNestedValue|[s ->%value_at_getNestedValue]];
      exact I. }
  exists options. split; [done|]. right. left. by exists stateSpecificOptions.
Qed.

Lemma state_options_return_witness :
  ∃ options,
    getFieldOptions Sample.foundation_type
      (VObj [("home"%string, VObj [("address_state"%string, VStr "fl")])])
    = Normal options
    ∧ (FieldConfiguration.options Sample.foundation_type = Some options
       ∨ (∃ stateSpecificOptions,
            FieldConfiguration.stateSpecificOptions Sample.foundation_type
            = Some stateSpecificOptions
            ∧ (options = StateSpecificOptions.default stateSpecificOptions
               ∨ ∃ code, StateSpecificOptions.byState stateSpecificOptions !! code
                         = Some options))
       ∨ options = []).
Proof.
  apply (state_options_return Sample.foundation_type
           (VObj [("home"%string, VObj [("address_state"%string, VStr "fl")])])).
  intros dependsOnStateFrom [= <-]. right. exists "fl"%string.
  eapply value_below; [reflexivity|]. eapply value_below; [reflexivity|].
  apply value_here.
Defined.

(** ** The dynamic group materializer *)

(** What one template adds to the groups pushed so far. *)
Lemma materialize_pushed (data : any) (dynamicGroups : list FieldGroup.t)
    (template : FieldGroup.t) :
  materialize data dynamicGroups template
  = groups ← materialize data [] template; Normal (dynamicGroups ++ groups).
Proof.
  unfold materialize.
  destruct (negb _ || negb _); simpl; [by rewrite app_nil_r|].
  destruct (decide (_ = Some "client.household_members[*]"%string)) as [Hmembers|_].
  - destruct (decide (_ = Some "auto.vehicles[*]"%string)) as [Hvehicles|_];
      [congruence|].
    destruct (member data "client") as [client|]; simpl; [|done].
    by destruct (elements_or_empty _).
  - destruct (decide (_ = Some "auto.vehicles[*]"%string)) as [_|_]; simpl;
      [|by rewrite app_nil_r].
    destruct (member data "auto") as [auto|]; simpl; [|done].
    by destruct (elements_or_empty _).
Qed.

Lemma createDynamicGroups_pushed (data : any) (templateGroups : list FieldGroup.t) :
  ∀ pushed,
    fold_left (λ pushed template,
                 dynamicGroups ← pushed; materialize data dynamicGroups template)
      templateGroups pushed
    = dynamicGroups ← pushed;
      groups ← createDynamicGroups data templateGroups;
      Normal (dynamicGroups ++ groups).
Proof.
  unfold createDynamicGroups.
  induction templateGroups as [|template rest IH]; intros pushed; simpl.
  - destruct pushed; simpl; [by rewrite app_nil_r|done].
  - rewrite IH. rewrite (IH (materialize data [] template)).
    destruct pushed as [dynamicGroups|]; simpl; [|done].
    rewrite (materialize_pushed data dynamicGroups).
    destruct (materialize data [] template) as [groups|]; simpl; [|done].
    destruct (fold_left _ rest (Normal [])) as [groups'|]; simpl; [|done].
    by rewrite app_assoc.
Qed.

(** The groups of a list of templates are those of its parts, in order. *)
Lemma createDynamicGroups_app (data : any) (before after : list FieldGroup.t) :
  createDynamicGroups data (before ++ after)
  = pushedBefore ← createDynamicGroups data before;
    pushedAfter ← createDynamicGroups data after;
    Normal (pushedBefore ++ pushedAfter).
Proof.
  unfold createDynamicGroups at 1. rewrite fold_left_app.
  apply createDynamicGroups_pushed.
Qed.

Lemma createDynamicGroups_cons (data : any) (template : FieldGroup.t)
    (after : list FieldGroup.t) :
  createDynamicGroups data (template :: after)
  = groups ← materialize data [] template;
    pushedAfter ← createDynamicGroups data after;
    Normal (groups ++ pushedAfter).
Proof.
  unfold createDynamicGroups at 1. simpl. apply createDynamicGroups_pushed.
Qed.






(** The three vehicles of the sample document, for the template at
    order 3. *)
Example three_vehicles :
  createDynamicGroups Sample.document [Sample.vehicle_template]
  = Normal [Sample.dynamic "vehicle_0" "Vehicle 1" 3 "Information for vehicle 1";
            Sample.dynamic "vehicle_1" "Vehicle 2" 4 "Information for vehicle 2";
            Sample.dynamic "vehicle_2" "Vehicle 3" 5 "Information for vehicle 3"].
Proof. reflexivity. Qed.

Example no_vehicles :
  createDynamicGroups (VObj [("auto"%string, VObj [])]) [Sample.vehicle_template] = Normal []
  ∧ createDynamicGroups (VObj []) [Sample.vehicle_template] = Normal []
  ∧ createDynamicGroups (VObj [("auto"%string, VObj [("vehicles"%string, VArr [])])])
      [Sample.vehicle_template] = Normal []
  ∧ createDynamicGroups (VObj [("auto"%string, VStr "x")]) [Sample.vehicle_template]
    = Normal []
  ∧ createDynamicGroups (VObj [("auto"%string, VObj [("vehicles"%string, VNum 0)])])
      [Sample.vehicle_template] = Normal [].
Proof. repeat split. Qed.

(** A template with the pattern [home.additional_interests[*]] adds no
    group, whatever the document holds. *)
Lemma materialize_additional_interests (data : any) (template : FieldGroup.t)
    (dynamicGroups : list FieldGroup.t) :
  FieldGroup.templatePattern template = Some "home.additional_interests[*]"%string →
  materialize data dynamicGroups template = Normal dynamicGroups.
Proof.
  intros Hpattern. unfold materialize. rewrite Hpattern.
  destruct (negb _ || negb _); [done|]. simpl.
  repeat (case_decide; [discriminate|]). done.
Qed.

(** C5: the materializer does not know [home.additional_interests[*]].
    The template [additional_interests_template] of [FIELD_GROUPS] is
    applied to a document with two additional interests and contributes
    no group, where [client.household_members[*]] and [auto.vehicles[*]]
    contribute one group per element. *)
Theorem additional_interests_not_materialized :
  collection_at Sample.document "home" "additional_interests"
    [VObj [("type"%string, VStr "Mortgagee")]; VObj [("type"%string, VStr "Lienholder")]]
  ∧ createDynamicGroups Sample.document [Sample.additional_interests_template]
    = Normal []
  ∧ createDynamicGroups Sample.document [Sample.household_member_template]
    = Normal [Sample.dynamic "household_member_0" "Household Member 1" 7
                "Information for household member 1"].
Proof.
  split; [|split]; [|reflexivity|reflexivity].
  eapply collection_present; reflexivity.
Qed.

(** ** The group hierarchy builder *)

(** *** Sorting by order *)

Lemma elem_of_filter_list {A : Type} (f : A → bool) (x : A) (l : list A) :
  x ∈ List.filter f l ↔ x ∈ l ∧ f x = true.
Proof. rewrite !list_elem_of_In. apply filter_In. Qed.

Lemma compareOrder_le (a b : FieldGroup.t) :
  Qle_bool (compareOrder a b) 0 = true
  ↔ (FieldGroup.order a <= FieldGroup.order b)%Q.
Proof. unfold compareOrder. rewrite Qle_bool_iff. split; intros H; lra. Qed.

Lemma compareOrder_gt (a b : FieldGroup.t) :
  Qle_bool (compareOrder a b) 0 = false
  ↔ (FieldGroup.order b < FieldGroup.order a)%Q.
Proof.
  rewrite <- not_true_iff_false, compareOrder_le. split; intros H; lra.
Qed.

Lemma insert_sorted_perm (x : FieldGroup.t) (l : list FieldGroup.t) :
  insert_sorted compareOrder x l ≡ₚ x :: l.
Proof.
  induction l as [|y rest IH]; simpl; [done|].
  destruct (Qle_bool _ _); [done|].
  rewrite IH. apply Permutation_swap.
Qed.

Lemma insert_sorted_ordered (x : FieldGroup.t) (l : list FieldGroup.t) :
  ordered l → ordered (insert_sorted compareOrder x l).
Proof.
  unfold ordered. induction 1 as [|y rest Hrest IH Hy]; simpl.
  - repeat constructor.
  - destruct (Qle_bool (compareOrder x y) 0) eqn:Hxy.
    + apply compareOrder_le in Hxy.
      constructor; [by constructor|]. constructor; [done|].
      eapply Forall_impl; [exact Hy|]. intros z Hz. simpl in Hz. lra.
    + apply compareOrder_gt in Hxy. constructor; [done|].
      rewrite insert_sorted_perm. constructor; [lra|done].
Qed.

Lemma insert_sorted_stable (q : Q) (x : FieldGroup.t) (l : list FieldGroup.t) :
  List.filter (same_order q) (insert_sorted compareOrder x l)
  = List.filter (same_order q) (x :: l).
Proof.
  induction l as [|y rest IH]; [done|]. cbn [insert_sorted].
  destruct (Qle_bool (compareOrder x y) 0) eqn:Hxy; [done|].
  apply compareOrder_gt in Hxy.
  cbn [List.filter] in *. rewrite IH.
  destruct (same_order q x) eqn:Hx, (same_order q y) eqn:Hy; try done.
  unfold same_order in Hx, Hy. apply Qeq_bool_iff in Hx, Hy. lra.
Qed.

(** [sort] by [compareOrder] is a stable sort. *)
Lemma sort_stably_sorted (l : list FieldGroup.t) :
  stably_sorted l (sort compareOrder l).
Proof.
  induction l as [|x rest (Hordered & Hperm & Hstable)]; simpl.
  - split; [constructor|done].
  - split; [by apply insert_sorted_ordered|]. split.
    + by rewrite insert_sorted_perm, Hperm.
    + intros q. rewrite insert_sorted_stable. simpl. by rewrite Hstable.
Qed.

Lemma same_order_refl (group : FieldGroup.t) :
  same_order (FieldGroup.order group) group = true.
Proof. unfold same_order. apply Qeq_bool_iff. reflexivity. Qed.

Lemma ordered_head (x : FieldGroup.t) (l : list FieldGroup.t) (y : FieldGroup.t) :
  ordered (x :: l) → y ∈ x :: l → (FieldGroup.order x <= FieldGroup.order y)%Q.
Proof.
  intros [Hl Hx]%StronglySorted_inv [->|Hy]%elem_of_cons; [lra|].
  rewrite Forall_forall in Hx. by apply Hx.
Qed.

Lemma ordered_tail (x : FieldGroup.t) (l : list FieldGroup.t) :
  ordered (x :: l) → ordered l.
Proof. by intros [Hl _]%StronglySorted_inv. Qed.

(** Two ascending lists with the same groups of every order, in the same
    sequence, are the same list. *)
Lemma ordered_unique (l1 : list FieldGroup.t) :
  ∀ l2,
    ordered l1 → ordered l2 →
    (∀ q, List.filter (same_order q) l1 = List.filter (same_order q) l2) →
    l1 = l2.
Proof.
  induction l1 as [|x l1 IH]; intros [|y l2] H1 H2 Hsame; [done|..].
  - specialize (Hsame (FieldGroup.order y)). simpl in Hsame.
    by rewrite same_order_refl in Hsame.
  - specialize (Hsame (FieldGroup.order x)). simpl in Hsame.
    by rewrite same_order_refl in Hsame.
  - assert (x ∈ List.filter (same_order (FieldGroup.order x)) (y :: l2))
      as [Hx _]%elem_of_filter_list.
    { rewrite <- Hsame. simpl. rewrite same_order_refl. left. }
    assert (y ∈ List.filter (same_order (FieldGroup.order y)) (x :: l1))
      as [Hy _]%elem_of_filter_list.
    { rewrite Hsame. simpl. rewrite same_order_refl. left. }
    apply (ordered_head _ _ _ H2) in Hx. apply (ordered_head _ _ _ H1) in Hy.
    assert (same_order (FieldGroup.order x) y = true) as Hxy.
    { unfold same_order. apply Qeq_bool_iff. lra. }
    assert (x = y) as <-.
    { specialize (Hsame (FieldGroup.order x)). simpl in Hsame.
      rewrite Hxy, same_order_refl in Hsame. by injection Hsame. }
    f_equal. apply IH; [by eapply ordered_tail|by eapply ordered_tail|].
    intros q. specialize (Hsame q). simpl in Hsame.
    destruct (same_order q x); [by injection Hsame|done].
Qed.

(** A stable sort by [order] has one result: whatever algorithm the
    engine runs behind [Array.prototype.sort], it returns what [sort]
    returns. *)
Lemma stably_sorted_sort (groups sorted : list FieldGroup.t) :
  stably_sorted groups sorted → sorted = sort compareOrder groups.
Proof.
  intros (Hordered & _ & Hstable).
  destruct (sort_stably_sorted groups) as (Hordered' & _ & Hstable').
  apply ordered_unique; [done|done|].
  intros q. by rewrite Hstable, Hstable'.
Qed.

(** *** The two loops *)

Lemma initialize_topLevel (allGroups : list FieldGroup.t) :
  ∀ state,
    Hierarchy.topLevel (fold_left initialize allGroups state)
    = Hierarchy.topLevel state ++ List.filter is_top_level allGroups.
Proof.
  induction allGroups as [|group rest IH]; intros state; simpl.
  - by rewrite app_nil_r.
  - rewrite IH. unfold initialize, is_top_level.
    destruct (negb _); simpl; [by rewrite <- app_assoc|done].
Qed.

Lemma own_ids_cons (group : FieldGroup.t) (allGroups : list FieldGroup.t) :
  own_ids (group :: allGroups)
  ↔ (is_top_level group = true → FieldGroup.id group ≠ "__proto__"%string)
    ∧ own_ids allGroups.
Proof.
  unfold own_ids. simpl. destruct (is_top_level group).
  - rewrite Forall_cons. split; [intros [? ?]|intros [Hid ?]]; split; auto.
  - split; [by intros ?|by intros [_ ?]].
Qed.

(** After the first loop a key has a bucket when it is the id of a
    top-level group, and the buckets of those are empty. *)
Lemma initialize_hierarchy (allGroups : list FieldGroup.t) (parentId : string) :
  own_ids allGroups →
  ∀ state,
    Hierarchy.hierarchy (fold_left initialize allGroups state) !! parentId
    = if bool_decide (parentId ∈ FieldGroup.id <$> List.filter is_top_level allGroups)
      then Some []
      else Hierarchy.hierarchy state !! parentId.
Proof.
  induction allGroups as [|group rest IH]; intros Hids state; [done|].
  apply own_ids_cons in Hids as [Hid Hids].
  cbn [fold_left List.filter]. rewrite (IH Hids). unfold initialize.
  fold (is_top_level group).
  destruct (is_top_level group); [|done]. cbn [Hierarchy.hierarchy].
  apply String.eqb_neq in Hid; [|done]. rewrite Hid.
  rewrite fmap_cons.
  destruct (decide (FieldGroup.id group = parentId)) as [<-|Hne].
  - rewrite lookup_insert_eq.
    rewrite (bool_decide_eq_true_2 (_ ∈ _ :: _)); [|left].
    by case_bool_decide.
  - rewrite lookup_insert_ne by done.
    destruct (decide (parentId ∈ FieldGroup.id <$> List.filter is_top_level rest))
      as [Hin|Hout].
    + rewrite !bool_decide_eq_true_2; [done|by right|done].
    + rewrite !bool_decide_eq_false_2; [done| |done].
      by intros [->|?]%elem_of_cons.
Qed.

Lemma addChild_lookup (hierarchy added : gmap string (list FieldGroup.t))
    (group : FieldGroup.t) (parentId : string) :
  addChild hierarchy group = Normal added →
  added !! parentId
  = (λ children, children ++ List.filter (child_of parentId) [group])
      <$> hierarchy !! parentId.
Proof.
  unfold addChild, child_of. simpl.
  destruct (FieldGroup.parentGroup group) as [parentGroup|]; simpl.
  - destruct (negb (String.eqb parentGroup EmptyString)); simpl.
    + destruct (decide (parentGroup = parentId)) as [->|Hne].
      * rewrite bool_decide_eq_true_2 by done.
        destruct (hierarchy !! parentId) as [children|] eqn:Hchildren.
        -- intros [= <-]. by rewrite lookup_insert_eq.
        -- destruct (inherited parentId); intros [= <-]. by rewrite Hchildren.
      * rewrite bool_decide_eq_false_2 by congruence.
        destruct (hierarchy !! parentGroup) as [children|].
        -- intros [= <-]. rewrite lookup_insert_ne by done.
           destruct (hierarchy !! parentId); simpl; [by rewrite app_nil_r|done].
        -- destruct (inherited parentGroup); intros [= <-].
           destruct (hierarchy !! parentId); simpl; [by rewrite app_nil_r|done].
    + intros [= <-].
      destruct (hierarchy !! parentId); simpl; [by rewrite app_nil_r|done].
  - intros [= <-].
    destruct (hierarchy !! parentId); simpl; [by rewrite app_nil_r|done].
Qed.

(** [addChild] throws for a parent id that is no key of the map but the
    name of a member that the map inherits, and for no other. *)
Lemma addChild_throws (hierarchy : gmap string (list FieldGroup.t))
    (group : FieldGroup.t) :
  addChild hierarchy group = Throw TypeError
  ↔ ∃ parentId,
      FieldGroup.parentGroup group = Some parentId
      ∧ parentId ≠ EmptyString
      ∧ inherited parentId = true
      ∧ hierarchy !! parentId = None.
Proof.
  unfold addChild. simpl.
  destruct (FieldGroup.parentGroup group) as [parentGroup|];
    [|split; [done|by intros (? & ? & _)]].
  destruct (String.eqb_spec parentGroup EmptyString) as [->|Hset]; simpl.
  { split; [done|]. by intros (? & [= <-] & ? & _). }
  destruct (hierarchy !! parentGroup) as [children|] eqn:Hchildren.
  { split; [done|]. intros (? & [= <-] & _ & _ & ?). congruence. }
  destruct (inherited parentGroup) eqn:Hinherited.
  - split; [|done]. intros _. by exists parentGroup.
  - split; [done|]. intros (? & [= <-] & _ & ? & _). congruence.
Qed.

(** After a throw the loop does nothing more. *)
Lemma addChildren_thrown (allGroups : list FieldGroup.t) (e : exn) :
  fold_left (λ added group, hierarchy ← added; addChild hierarchy group)
    allGroups (Throw e) = Throw e.
Proof. by induction allGroups. Qed.

Lemma addChildren_cons (group : FieldGroup.t) (allGroups : list FieldGroup.t)
    (hierarchy : gmap string (list FieldGroup.t)) :
  addChildren (group :: allGroups) hierarchy
  = added ← addChild hierarchy group; addChildren allGroups added.
Proof.
  unfold addChildren. simpl.
  destruct (addChild hierarchy group) as [added|e]; simpl; [done|].
  apply addChildren_thrown.
Qed.

(** The second loop appends to a bucket, in the order of the working
    set, the groups that name its key as their parent. *)
Lemma addChildren_lookup (allGroups : list FieldGroup.t) (parentId : string) :
  ∀ hierarchy added,
    addChildren allGroups hierarchy = Normal added →
    added !! parentId
    = (λ children, children ++ List.filter (child_of parentId) allGroups)
        <$> hierarchy !! parentId.
Proof.
  induction allGroups as [|group rest IH]; intros hierarchy added.
  - intros [= <-]. destruct (hierarchy !! parentId); simpl; [by rewrite app_nil_r|done].
  - rewrite addChildren_cons.
    destruct (addChild hierarchy group) as [next|] eqn:Hnext; simpl; [|done].
    intros Hadded. rewrite (IH next added Hadded), (addChild_lookup _ _ _ _ Hnext).
    destruct (hierarchy !! parentId) as [children|]; simpl; [|done].
    destruct (child_of parentId group); simpl; [|by rewrite app_nil_r].
    by rewrite <- app_assoc.
Qed.

(** The second loop returns when every parent id that is the name of an
    inherited member is a key of the map, and throws otherwise. *)
Lemma addChildren_returns (allGroups : list FieldGroup.t) :
  ∀ hierarchy,
    (∀ group parentId,
       group ∈ allGroups → FieldGroup.parentGroup group = Some parentId →
       parentId ≠ EmptyString → inherited parentId = true →
       is_Some (hierarchy !! parentId)) →
    ∃ added, addChildren allGroups hierarchy = Normal added.
Proof.
  induction allGroups as [|group rest IH]; intros hierarchy Hkeys; [by eexists|].
  rewrite addChildren_cons.
  destruct (addChild hierarchy group) as [next|[]] eqn:Hnext; simpl.
  - apply IH. intros child parentId Hchild Hparent Hset Hinherited.
    rewrite (addChild_lookup _ _ _ _ Hnext). apply fmap_is_Some.
    apply (Hkeys child); [by right|done..].
  - apply addChild_throws in Hnext as (parentId & Hparent & Hset & Hinherited & Hkey).
    destruct (Hkeys group parentId) as [children Hchildren]; [left|done..|].
    congruence.
Qed.

Lemma addChildren_throws (allGroups : list FieldGroup.t) (group : FieldGroup.t)
    (parentId : string) :
  group ∈ allGroups → FieldGroup.parentGroup group = Some parentId →
  parentId ≠ EmptyString → inherited parentId = true →
  ∀ hierarchy,
    hierarchy !! parentId = None →
    addChildren allGroups hierarchy = Throw TypeError.
Proof.
  intros Hgroup Hparent Hset Hinherited.
  induction allGroups as [|first rest IH]; intros hierarchy Hkey;
    [by apply elem_of_nil in Hgroup|].
  rewrite addChildren_cons.
  destruct (addChild hierarchy first) as [next|[]] eqn:Hnext; simpl; [|done].
  apply elem_of_cons in Hgroup as [<-|Hgroup].
  - assert (addChild hierarchy group = Throw TypeError) as Hthrow.
    { apply addChild_throws. by exists parentId. }
    congruence.
  - apply IH; [done|]. by rewrite (addChild_lookup _ _ _ _ Hnext), Hkey.
Qed.

Lemma names_inherited_spec (allGroups : list FieldGroup.t) (group : FieldGroup.t) :
  names_inherited allGroups group = true
  ↔ ∃ parentId,
      FieldGroup.parentGroup group = Some parentId
      ∧ parentId ≠ EmptyString
      ∧ inherited parentId = true
      ∧ parentId ∉ FieldGroup.id <$> List.filter is_top_level allGroups.
Proof.
  unfold names_inherited.
  destruct (FieldGroup.parentGroup group) as [parentId|];
    [|split; [done|by intros (? & ? & _)]].
  rewrite !andb_true_iff, negb_true_iff, bool_decide_eq_false. simpl.
  rewrite negb_true_iff, String.eqb_neq. split.
  - intros [[Hset Hinherited] Hkey]. by exists parentId.
  - by intros (? & [= <-] & Hset & Hinherited & Hkey).
Qed.

(** *** What the builder returns *)

(** The builder returns exactly when no group names an inherited member
    as its parent. *)
Lemma buildGroupHierarchy_returns (flatGroups : group_registry)
    (dynamicGroups : list FieldGroup.t) :
  let allGroups := map snd flatGroups ++ dynamicGroups in
  own_ids allGroups →
  Forall (λ group, names_inherited allGroups group = false) allGroups →
  ∃ built, buildGroupHierarchy flatGroups dynamicGroups = Normal built.
Proof.
  intros allGroups Hids Hnames. unfold buildGroupHierarchy. fold allGroups.
  destruct (addChildren_returns allGroups
              (Hierarchy.hierarchy (fold_left initialize allGroups (Hierarchy.mk [] ∅))))
    as [added ->]; [|by eexists].
  intros group parentId Hgroup Hparent Hset Hinherited.
  rewrite (initialize_hierarchy _ _ Hids). case_bool_decide as Hkey; [done|].
  rewrite Forall_forall in Hnames. specialize (Hnames group Hgroup).
  apply not_true_iff_false in Hnames. destruct Hnames.
  apply names_inherited_spec. by exists parentId.
Qed.

Lemma buildGroupHierarchy_throws (flatGroups : group_registry)
    (dynamicGroups : list FieldGroup.t) :
  let allGroups := map snd flatGroups ++ dynamicGroups in
  own_ids allGroups →
  Exists (λ group, names_inherited allGroups group = true) allGroups →
  buildGroupHierarchy flatGroups dynamicGroups = Throw TypeError.
Proof.
  intros allGroups Hids (group & Hgroup & Hnames)%Exists_exists.
  apply names_inherited_spec in Hnames as (parentId & Hparent & Hset & Hinherited & Hkey).
  unfold buildGroupHierarchy. fold allGroups.
  rewrite (addChildren_throws allGroups group parentId); [done..|].
  rewrite (initialize_hierarchy _ _ Hids). by rewrite bool_decide_eq_false_2.
Qed.

(** The buckets of the builder. *)
Lemma buildGroupHierarchy_lookup (flatGroups : group_registry)
    (dynamicGroups : list FieldGroup.t) (built : Hierarchy.t) (parentId : string) :
  let allGroups := map snd flatGroups ++ dynamicGroups in
  own_ids allGroups →
  buildGroupHierarchy flatGroups dynamicGroups = Normal built →
  Hierarchy.hierarchy built !! parentId
  = if bool_decide (parentId ∈ FieldGroup.id <$> List.filter is_top_level allGroups)
    then Some (sort compareOrder (List.filter (child_of parentId) allGroups))
    else None.
Proof.
  intros allGroups Hids. unfold buildGroupHierarchy. fold allGroups.
  destruct (addChildren allGroups _) as [added|] eqn:Hadded; simpl; [|done].
  intros [= <-]. simpl.
  rewrite lookup_fmap, (addChildren_lookup _ _ _ _ Hadded).
  rewrite (initialize_hierarchy _ _ Hids).
  simpl. by case_bool_decide.
Qed.

Lemma buildGroupHierarchy_topLevel (flatGroups : group_registry)
    (dynamicGroups : list FieldGroup.t) (built : Hierarchy.t) :
  buildGroupHierarchy flatGroups dynamicGroups = Normal built →
  Hierarchy.topLevel built
  = sort compareOrder
      (List.filter is_top_level (map snd flatGroups ++ dynamicGroups)).
Proof.
  unfold buildGroupHierarchy.
  destruct (addChildren _ _) as [added|]; simpl; [|done].
  intros [= <-]. simpl. by rewrite initialize_topLevel.
Qed.

Lemma filter_none {A : Type} (f : A → bool) (l : list A) :
  Forall (λ x, f x = false) l → List.filter f l = [].
Proof. induction 1 as [|x rest Hx _ IH]; simpl; [done|]. by rewrite Hx. Qed.

(** C7 (as stated) fails: the builder does not return for every input.
    The group below names [constructor] as its parent, which is the id of
    no group; [hierarchy['constructor']] is the function that the map
    inherits, and [push] is no method of it. *)
Lemma inherited_parent_throws :
  buildGroupHierarchy Sample.AUTO_GROUPS [Sample.constructor_child] = Throw TypeError.
Proof. by vm_compute. Qed.

(** C7 (amended): for every input in which no group without a parent has
    the id [__proto__] and no group names as its parent a member that the
    map inherits, the builder returns; the top-level list is the stable
    sort by [order] of the groups without a parent, in the order of the
    working set; every children bucket of the returned map is the stable
    sort by [order] of the groups that name its key as their parent; and
    every group without a parent has a bucket, which is empty when no
    group names it as its parent. *)
Theorem hierarchy_ordering (flatGroups : group_registry)
    (dynamicGroups : list FieldGroup.t) :
  let allGroups := map snd flatGroups ++ dynamicGroups in
  own_ids allGroups →
  Forall (λ group, names_inherited allGroups group = false) allGroups →
  ∃ built,
    buildGroupHierarchy flatGroups dynamicGroups = Normal built
    ∧ stably_sorted (List.filter is_top_level allGroups) (Hierarchy.topLevel built)
    ∧ (∀ parentId children,
         Hierarchy.hierarchy built !! parentId = Some children →
         stably_sorted (List.filter (child_of parentId) allGroups) children)
    ∧ (∀ group,
         group ∈ allGroups → is_top_level group = true →
         ∃ children,
           Hierarchy.hierarchy built !! FieldGroup.id group = Some children
           ∧ (Forall (λ g, child_of (FieldGroup.id group) g = false) allGroups →
              children = [])).
Proof.
  intros allGroups Hids Hnames.
  destruct (buildGroupHierarchy_returns flatGroups dynamicGroups Hids Hnames)
    as [built Hbuilt].
  exists built. split; [done|]. split; [|split].
  - rewrite (buildGroupHierarchy_topLevel _ _ _ Hbuilt). apply sort_stably_sorted.
  - intros parentId children.
    rewrite (buildGroupHierarchy_lookup _ _ _ _ Hids Hbuilt).
    case_bool_decide; [|done]. intros [= <-]. apply sort_stably_sorted.
  - intros group Hgroup Htop.
    rewrite (buildGroupHierarchy_lookup _ _ _ _ Hids Hbuilt).
    rewrite bool_decide_eq_true_2.
    + eexists. split; [done|]. intros Hchildless.
      fold allGroups. by rewrite (filter_none _ _ Hchildless).
    + apply list_elem_of_fmap. exists group. split; [done|].
      by apply elem_of_filter_list.
Qed.

Lemma hierarchy_ordering_witness :
  ∃ built,
    buildGroupHierarchy [] Sample.three_one_two = Normal built
    ∧ stably_sorted (List.filter is_top_level Sample.three_one_two)
        (Hierarchy.topLevel built)
    ∧ (∀ parentId children,
         Hierarchy.hierarchy built !! parentId = Some children →
         stably_sorted (List.filter (child_of parentId) Sample.three_one_two) children)
    ∧ (∀ group,
         group ∈ Sample.three_one_two → is_top_level group = true →
         ∃ children,
           Hierarchy.hierarchy built !! FieldGroup.id group = Some children
           ∧ (Forall (λ g, child_of (FieldGroup.id group) g = false)
                Sample.three_one_two →
              children = [])).
Proof.
  apply (hierarchy_ordering [] Sample.three_one_two).
  - unfold own_ids. simpl. repeat (constructor; [discriminate|]). constructor.
  - repeat (constructor; [reflexivity|]). constructor.
Defined.

(** The example of the specification: the top-level orders 3, 1, 2 come
    back as 1, 2, 3 and the children 20, 10 of the group ["1"] as 10, 20;
    the groups ["2"] and ["3"] have empty buckets. *)
Example hierarchy_three_one_two :
  ∃ built,
    buildGroupHierarchy [] Sample.three_one_two = Normal built
    ∧ map FieldGroup.id (Hierarchy.topLevel built) = ["1"; "2"; "3"]%string
    ∧ option_map (map FieldGroup.id) (Hierarchy.hierarchy built !! "1"%string)
      = Some ["10"; "20"]%string
    ∧ Hierarchy.hierarchy built !! "2"%string = Some []
    ∧ Hierarchy.hierarchy built !! "3"%string = Some []
    ∧ Hierarchy.hierarchy built !! "10"%string = None.
Proof. eexists. split; [reflexivity|]. repeat split. Qed.

(** Ties keep the order of the working set: the auto groups with the
    dynamic groups of two vehicles.  [vehicle_template] and [vehicle_0]
    both have the order 3, [current_insurance_details] and [vehicle_1]
    both have the order 4. *)
Example hierarchy_auto_ties :
  ∃ built,
    buildGroupHierarchy Sample.AUTO_GROUPS
      [vehicle_group Sample.vehicle_template 0;
       vehicle_group Sample.vehicle_template 1] = Normal built
    ∧ map FieldGroup.id (Hierarchy.topLevel built)
      = ["auto_policy_information"; "violations_claims"; "vehicle_template";
         "vehicle_0"; "current_insurance_details"; "vehicle_1"]%string.
Proof. eexists. split; reflexivity. Qed.

(** A group without a parent whose id is [__proto__] comes back in the
    top-level list and has no bucket among the own properties of the
    map: [hierarchy['__proto__'] = []] makes no own property. *)
Example proto_id_has_no_bucket :
  ∃ built,
    buildGroupHierarchy [] [Sample.proto_group] = Normal built
    ∧ map FieldGroup.id (Hierarchy.topLevel built) = ["__proto__"]%string
    ∧ Hierarchy.hierarchy built !! "__proto__"%string = None.
Proof. eexists. split; [reflexivity|]. split; reflexivity. Qed.

(** C8 (as stated) fails: the builder can raise on an orphan.  The group
    below names [toString] as its parent, which is the id of no group
    without a parent; [hierarchy['toString']] is the function that the
    map inherits, the guard of the second loop takes it for a bucket, and
    [push] is no method of it. *)
Lemma orphan_raises :
  FieldGroup.parentGroup Sample.toString_child = Some "toString"%string
  ∧ (∀ top,
       top ∈ map snd Sample.AUTO_GROUPS ++ [Sample.toString_child] →
       is_top_level top = true → FieldGroup.id top ≠ "toString"%string)
  ∧ buildGroupHierarchy Sample.AUTO_GROUPS [Sample.toString_child] = Throw TypeError.
Proof.
  split; [done|]. split; [|by vm_compute].
  intros top Htop _. simpl in Htop.
  repeat (apply elem_of_cons in Htop as [->|Htop]; [discriminate|]).
  by apply elem_of_nil in Htop.
Qed.

(** C8 (amended): for every input in which no group without a parent has
    the id [__proto__] and no group names as its parent a member that the
    map inherits, the builder returns, and a group whose [parentGroup] is
    set (to a non-empty id) and is the id of no group without a parent is
    nowhere in what it returns, neither in [topLevel] nor in a children
    bucket. *)
Theorem orphan_dropped (flatGroups : group_registry)
    (dynamicGroups : list FieldGroup.t) (group : FieldGroup.t) (parentId : string) :
  let allGroups := map snd flatGroups ++ dynamicGroups in
  own_ids allGroups →
  Forall (λ group, names_inherited allGroups group = false) allGroups →
  FieldGroup.parentGroup group = Some parentId →
  parentId ≠ EmptyString →
  (∀ top, top ∈ allGroups → is_top_level top = true → FieldGroup.id top ≠ parentId) →
  ∃ built,
    buildGroupHierarchy flatGroups dynamicGroups = Normal built
    ∧ (group ∉ Hierarchy.topLevel built)
    ∧ (∀ key children,
         Hierarchy.hierarchy built !! key = Some children → group ∉ children).
Proof.
  intros allGroups Hids Hnames Hparent Hset Horphan.
  destruct (buildGroupHierarchy_returns flatGroups dynamicGroups Hids Hnames)
    as [built Hbuilt].
  exists built. split; [done|]. split.
  - rewrite (buildGroupHierarchy_topLevel _ _ _ Hbuilt).
    destruct (sort_stably_sorted (List.filter is_top_level allGroups))
      as (_ & Hperm & _).
    fold allGroups. rewrite Hperm, elem_of_filter_list. intros [_ Htop].
    unfold is_top_level in Htop. rewrite Hparent in Htop. simpl in Htop.
    apply String.eqb_neq in Hset. by rewrite Hset in Htop.
  - intros key children. rewrite (buildGroupHierarchy_lookup _ _ _ _ Hids Hbuilt).
    case_bool_decide as Hkey; [|done]. intros [= <-].
    destruct (sort_stably_sorted (List.filter (child_of key) allGroups))
      as (_ & Hperm & _).
    fold allGroups. rewrite Hperm, elem_of_filter_list. intros [_ Hchild].
    unfold child_of in Hchild. apply andb_true_iff in Hchild as [_ Hchild].
    apply bool_decide_eq_true in Hchild. rewrite Hparent in Hchild.
    injection Hchild as ->.
    apply list_elem_of_fmap in Hkey as (top & Hid & Htop).
    apply elem_of_filter_list in Htop as [Hin Htop].
    by apply (Horphan top).
Qed.

Lemma orphan_dropped_witness :
  ∃ built,
    buildGroupHierarchy Sample.AUTO_GROUPS [Sample.orphan] = Normal built
    ∧ (Sample.orphan ∉ Hierarchy.topLevel built)
    ∧ (∀ key children,
         Hierarchy.hierarchy built !! key = Some children → Sample.orphan ∉ children).
Proof.
  apply (orphan_dropped Sample.AUTO_GROUPS [Sample.orphan] Sample.orphan
           "roadside_template").
  - unfold own_ids. simpl. repeat (constructor; [discriminate|]). constructor.
  - repeat (constructor; [reflexivity|]). constructor.
  - reflexivity.
  - discriminate.
  - intros top Htop _. simpl in Htop.
    repeat (apply elem_of_cons in Htop as [->|Htop]; [discriminate|]).
    by apply elem_of_nil in Htop.
Defined.

(** * The other helpers *)

(** ** State values *)

(** Case analysis over the entries of a table given in full. *)
Ltac each_entry H tac :=
  repeat (apply elem_of_cons in H as [->|H]; [tac|]);
  try (by apply elem_of_nil in H).

(** The table is its own dictionary: the label and the value of an entry
    both normalize to the value, and the value finds the entry back. *)
Lemma state_table :
  Forall
    (λ entry,
       normalizeStateValue (Some (DropdownOption.label entry))
       = Some (DropdownOption.value entry)
       ∧ normalizeStateValue (Some (DropdownOption.value entry))
         = Some (DropdownOption.value entry)
       ∧ List.find
           (λ option, bool_decide (Some (DropdownOption.value option)
                                   = Some (DropdownOption.value entry)))
           US_STATE_OPTIONS
         = Some entry
       ∧ DropdownOption.value entry ≠ EmptyString
       ∧ String.length (DropdownOption.value entry) = 2%nat
       ∧ Str.toUpperCase (DropdownOption.value entry)
         = Some (DropdownOption.value entry))
    US_STATE_OPTIONS.
Proof.
  unfold US_STATE_OPTIONS.
  repeat (constructor; [repeat split; by vm_compute|]). constructor.
Qed.

Lemma state_table_entry (entry : DropdownOption.t) :
  entry ∈ US_STATE_OPTIONS →
  normalizeStateValue (Some (DropdownOption.label entry))
  = Some (DropdownOption.value entry)
  ∧ normalizeStateValue (Some (DropdownOption.value entry))
    = Some (DropdownOption.value entry)
  ∧ List.find
      (λ option, bool_decide (Some (DropdownOption.value option)
                              = Some (DropdownOption.value entry)))
      US_STATE_OPTIONS
    = Some entry
  ∧ DropdownOption.value entry ≠ EmptyString
  ∧ String.length (DropdownOption.value entry) = 2%nat
  ∧ Str.toUpperCase (DropdownOption.value entry) = Some (DropdownOption.value entry).
Proof. intros Hentry. by apply (proj1 (Forall_forall _ _) state_table). Qed.

(** A code that is returned is the [value] of an entry of the table. *)
Lemma normalizeStateValue_entry (stateValue : option string) (code : string) :
  normalizeStateValue stateValue = Some code →
  ∃ entry, entry ∈ US_STATE_OPTIONS ∧ DropdownOption.value entry = code.
Proof.
  unfold normalizeStateValue.
  destruct stateValue as [value|]; [|done].
  destruct (negb (truthy_string (Some value))); [done|]. cbv zeta.
  set (normalizedInput := Text.toLowerCase (Text.trim value)).
  destruct (String.length normalizedInput =? 2)%nat.
  - destruct (List.find _ US_STATE_OPTIONS) as [entry|] eqn:Hfind.
    + apply find_some in Hfind as [Hin Hvalue].
      apply bool_decide_eq_true in Hvalue. rewrite <- Hvalue.
      intros [= <-]. exists entry. split; [by apply list_elem_of_In|done].
    + clear Hfind.
      destruct (List.find _ US_STATE_OPTIONS) as [matched|] eqn:Hlabel;
        simpl; [|intros [=]].
      intros [= <-]. apply find_some in Hlabel as [Hin _].
      exists matched. split; [by apply list_elem_of_In|done].
  - destruct (List.find _ US_STATE_OPTIONS) as [matched|] eqn:Hlabel;
      simpl; [|intros [=]].
    intros [= <-]. apply find_some in Hlabel as [Hin _].
    exists matched. split; [by apply list_elem_of_In|done].
Qed.

(** X1: whatever string it is given, [normalizeStateValue] returns [null]
    or the [value] of an entry of [US_STATE_OPTIONS]: a result is always
    one of the 51 codes of the table, two upper-case letters. *)
Theorem normalizeStateValue_in_table (stateValue : option string) (code : string) :
  normalizeStateValue stateValue = Some code →
  (∃ entry, entry ∈ US_STATE_OPTIONS ∧ DropdownOption.value entry = code)
  ∧ String.length code = 2%nat
  ∧ Str.toUpperCase code = Some code.
Proof.
  intros (entry & Hentry & <-)%normalizeStateValue_entry.
  destruct (state_table_entry entry Hentry) as (_ & _ & _ & _ & Hlength & Hupper).
  split; [by exists entry|done].
Qed.

Lemma normalizeStateValue_in_table_witness :
  (∃ entry, entry ∈ US_STATE_OPTIONS ∧ DropdownOption.value entry = "NY"%string)
  ∧ String.length "NY" = 2%nat
  ∧ Str.toUpperCase "NY" = Some "NY"%string.
Proof.
  apply (normalizeStateValue_in_table (Some " New York "%string) "NY").
  reflexivity.
Defined.

(** X2: [normalizeStateValue] is idempotent: a code it returns is
    returned unchanged when it is normalized again, and [null] stays
    [null]. *)
Theorem normalizeStateValue_idempotent (stateValue : option string) :
  normalizeStateValue (normalizeStateValue stateValue)
  = normalizeStateValue stateValue.
Proof.
  destruct (normalizeStateValue stateValue) as [code|] eqn:Hcode; [|done].
  apply normalizeStateValue_entry in Hcode as (entry & Hentry & <-).
  by apply state_table_entry.
Qed.

(** X3: names and abbreviations are recognized whatever their case and
    the white space around them: a string that, trimmed and lower-cased,
    is the lower-cased label or the lower-cased value of an entry of
    [US_STATE_OPTIONS] normalizes to the value of that entry. *)
Theorem normalizeStateValue_recognizes (stateValue : string) (entry : DropdownOption.t) :
  entry ∈ US_STATE_OPTIONS →
  Text.toLowerCase (Text.trim stateValue)
  = Text.toLowerCase (DropdownOption.label entry)
  ∨ Text.toLowerCase (Text.trim stateValue)
    = Text.toLowerCase (DropdownOption.value entry) →
  normalizeStateValue (Some stateValue) = Some (DropdownOption.value entry).
Proof.
  intros Hentry Hinput. unfold normalizeStateValue.
  destruct stateValue as [|c rest].
  - exfalso. destruct Hinput as [Hinput|Hinput];
      each_entry Hentry ltac:(discriminate Hinput).
  - change (negb (truthy_string (Some (String c rest)))) with false.
    cbv iota zeta.
    destruct Hinput as [Hinput|Hinput]; rewrite Hinput;
      each_entry Hentry ltac:(by vm_compute).
Qed.

Lemma normalizeStateValue_recognizes_witness :
  normalizeStateValue (Some "  nEw yOrK "%string) = Some "NY"%string.
Proof.
  apply (normalizeStateValue_recognizes "  nEw yOrK " (opt "NY" "New York")).
  - unfold US_STATE_OPTIONS. repeat first [left | right].
  - left. reflexivity.
Defined.

(** A value that normalizes to the code of an entry is displayed with
    the label of that entry, one that normalizes to no code as it is. *)
Lemma getStateDisplayLabel_known (stateValue : option string)
    (entry : DropdownOption.t) :
  entry ∈ US_STATE_OPTIONS →
  normalizeStateValue stateValue = Some (DropdownOption.value entry) →
  getStateDisplayLabel stateValue = DropdownOption.label entry.
Proof.
  intros Hentry Hcode. unfold getStateDisplayLabel.
  destruct (truthy_string stateValue) eqn:Htruthy;
    [|by destruct stateValue as [[|c rest]|]].
  cbn -[List.find US_STATE_OPTIONS normalizeStateValue]. rewrite Hcode.
  destruct (state_table_entry entry Hentry) as (_ & _ & Hfind & Hvalue & _).
  apply String.eqb_neq in Hvalue.
  cbn -[List.find US_STATE_OPTIONS]. by rewrite Hvalue, Hfind.
Qed.

Lemma getStateDisplayLabel_unknown (stateValue : option string) :
  normalizeStateValue stateValue = None →
  getStateDisplayLabel stateValue = or_empty stateValue.
Proof.
  intros Hcode. unfold getStateDisplayLabel.
  destruct (truthy_string stateValue) eqn:Htruthy;
    [|by destruct stateValue as [[|c rest]|]].
  cbn -[List.find US_STATE_OPTIONS normalizeStateValue]. by rewrite Hcode.
Qed.

(** X4: the display label of a state value is the [label] of the entry of
    [US_STATE_OPTIONS] whose code the value normalizes to; a value that
    normalizes to no code is displayed as it is (and [null], [undefined]
    and the empty string as the empty string). *)
Theorem getStateDisplayLabel_cases (stateValue : option string) :
  (∃ entry,
     entry ∈ US_STATE_OPTIONS
     ∧ normalizeStateValue stateValue = Some (DropdownOption.value entry)
     ∧ getStateDisplayLabel stateValue = DropdownOption.label entry)
  ∨ (normalizeStateValue stateValue = None
     ∧ getStateDisplayLabel stateValue = or_empty stateValue).
Proof.
  destruct (normalizeStateValue stateValue) as [code|] eqn:Hcode.
  - left. apply normalizeStateValue_entry in Hcode as Hentry.
    destruct Hentry as (entry & Hentry & <-).
    exists entry. split; [done|]. split; [done|].
    by apply getStateDisplayLabel_known.
  - right. split; [done|]. by apply getStateDisplayLabel_unknown.
Qed.

(** X5: the display label stands for the value it was made from: it
    normalizes to the same code, and its own display label is itself. *)
Theorem getStateDisplayLabel_round_trip (stateValue : option string) :
  normalizeStateValue (Some (getStateDisplayLabel stateValue))
  = normalizeStateValue stateValue
  ∧ getStateDisplayLabel (Some (getStateDisplayLabel stateValue))
    = getStateDisplayLabel stateValue.
Proof.
  destruct (normalizeStateValue stateValue) as [code|] eqn:Hcode.
  - apply normalizeStateValue_entry in Hcode as Hentry.
    destruct Hentry as (entry & Hentry & <-).
    rewrite (getStateDisplayLabel_known _ entry Hentry Hcode).
    destruct (state_table_entry entry Hentry) as (Hnormalize & _).
    split; [done|]. by apply getStateDisplayLabel_known.
  - rewrite (getStateDisplayLabel_unknown _ Hcode).
    destruct stateValue as [value|]; [|done].
    split; [done|]. by apply getStateDisplayLabel_unknown.
Qed.

(** ** Material percentages *)

(** A set of names has as many elements as the list when no name is
    listed twice, and fewer otherwise. *)
Lemma size_list_to_set_le (names : list string) :
  (size (list_to_set names : gset string) ≤ length names)%nat.
Proof.
  induction names as [|name rest IH]; cbn [list_to_set foldr length].
  - by rewrite size_empty.
  - rewrite size_union_alt, size_singleton.
    assert (size ((list_to_set rest : gset string) ∖ {[name]})
            ≤ size (list_to_set rest : gset string))%nat as Hrest.
    { apply subseteq_size. by intros x [Hx _]%elem_of_difference. }
    lia.
Qed.

Lemma size_list_to_set_NoDup (names : list string) :
  length names = size (list_to_set names : gset string) ↔ NoDup names.
Proof.
  split; [|intros Hnames; symmetry; by apply size_list_to_set].
  induction names as [|name rest IH]; cbn [list_to_set foldr length];
    intros Hsize; [constructor|].
  destruct (decide (name ∈ rest)) as [Hin|Hout].
  - exfalso.
    assert ({[name]} ∪ list_to_set rest = (list_to_set rest : gset string)) as Heq.
    { apply subseteq_union_1_L, singleton_subseteq_l. by apply elem_of_list_to_set. }
    rewrite Heq in Hsize. pose proof (size_list_to_set_le rest). lia.
  - constructor; [done|]. apply IH.
    rewrite size_union, size_singleton in Hsize; [lia|].
    apply disjoint_singleton_l. by rewrite elem_of_list_to_set.
Qed.

(** X6: a list of materials is valid exactly when the total of its
    percentages, added up from left to right in double precision, is not
    above 100 and no material is named twice.  A total above 100 is
    reported first, with its own message, also when a material is named
    twice; the message about duplicates is for lists with a total that is
    not above 100. *)
Theorem validateMaterialPercentages_cases (materials : list MaterialPercentage.t) :
  let result := validateMaterialPercentages (Some materials) in
  let names := map MaterialPercentage.material materials in
  let exceeds := PrimFloat.ltb 100 (total_percentage materials) in
  (result = ValidationResult.mk true None ↔ exceeds = false ∧ NoDup names)
  ∧ (result
     = ValidationResult.mk false (Some "Total percentage cannot exceed 100%"%string)
     ↔ exceeds = true)
  ∧ (result
     = ValidationResult.mk false (Some "Cannot have duplicate materials"%string)
     ↔ exceeds = false ∧ ¬ NoDup names).
Proof.
  intros result names exceeds. unfold result.
  destruct materials as [|item rest].
  { change (validateMaterialPercentages (Some []))
      with (ValidationResult.mk true None).
    assert (exceeds = false) as -> by reflexivity. unfold names.
    split; [|split].
    - split; [intros _; split; [done|constructor]|done].
    - done.
    - split; [done|]. intros [_ H]. destruct H. constructor. }
  unfold validateMaterialPercentages.
  change (length (item :: rest) =? 0)%nat with false. cbv iota zeta.
  fold (total_percentage (item :: rest)). fold exceeds. fold names.
  destruct exceeds.
  - repeat split; try done; by intros [? _].
  - destruct (length names =? size _)%nat eqn:Hsize; cbn [negb].
    + apply Nat.eqb_eq, size_list_to_set_NoDup in Hsize.
      repeat split; try done; by intros [_ H].
    + apply Nat.eqb_neq in Hsize. rewrite size_list_to_set_NoDup in Hsize.
      repeat split; try done; by intros [_ H].
Qed.

(** The three outcomes. *)
Example validateMaterialPercentages_outcomes :
  validateMaterialPercentages
    (Some [MaterialPercentage.mk "Paint" 60; MaterialPercentage.mk "Wood" 40])
  = ValidationResult.mk true None
  ∧ validateMaterialPercentages
      (Some [MaterialPercentage.mk "Paint" 60; MaterialPercentage.mk "Paint" 50])
    = ValidationResult.mk false (Some "Total percentage cannot exceed 100%"%string)
  ∧ validateMaterialPercentages
      (Some [MaterialPercentage.mk "Paint" 60; MaterialPercentage.mk "Paint" 40])
    = ValidationResult.mk false (Some "Cannot have duplicate materials"%string).
Proof. repeat split. Qed.

(** The total is a sum of doubles: the percentages 0.2, 83.9 and 15.9
    add up to more than 100 in this order and to 100 in another, and a
    percentage that is [NaN] counts as 0. *)
#[warnings="-inexact-float"]
Example validateMaterialPercentages_doubles :
  validateMaterialPercentages
    (Some [MaterialPercentage.mk "Brick" 0.2; MaterialPercentage.mk "Wood" 83.9;
           MaterialPercentage.mk "Stone" 15.9])
  = ValidationResult.mk false (Some "Total percentage cannot exceed 100%"%string)
  ∧ validateMaterialPercentages
      (Some [MaterialPercentage.mk "Stone" 15.9; MaterialPercentage.mk "Brick" 0.2;
             MaterialPercentage.mk "Wood" 83.9])
    = ValidationResult.mk true None
  ∧ validateMaterialPercentages
      (Some [MaterialPercentage.mk "Brick" nan; MaterialPercentage.mk "Wood" 100])
    = ValidationResult.mk true None.
Proof. repeat split. Qed.

(** ** Schemas of the claims arrays *)

Lemma string_prefix_app (pattern s : string) :
  String.prefix pattern s = true ↔ ∃ rest, s = (pattern ++ rest)%string.
Proof.
  revert s. induction pattern as [|c pattern IH]; intros s.
  - split; [intros _; by exists s|]. intros _. by destruct s.
  - destruct s as [|c' s]; [split; [done|by intros [rest ?]]|].
    rewrite string_prefix_cons. destruct (ascii_dec c c') as [<-|Hc].
    + rewrite IH. split; intros [rest Hrest]; exists rest.
      * by rewrite append_cons, Hrest.
      * rewrite append_cons in Hrest. by injection Hrest.
    + split; [done|]. intros [rest Hrest]. rewrite append_cons in Hrest.
      by injection Hrest.
Qed.

(** [includes] finds the substrings. *)
Lemma includes_app (searchString s : string) :
  Str.includes searchString s = true
  ↔ ∃ before after, s = (before ++ searchString ++ after)%string.
Proof.
  induction s as [|c s IH]; rewrite includes_unfold, orb_true_iff.
  - rewrite string_prefix_app. split.
    + intros [[after Hs]|?]; [|done]. by exists EmptyString, after.
    + intros (before & after & Hs). left. exists after.
      destruct before; [done|discriminate].
  - rewrite string_prefix_app, IH. split.
    + intros [[after Hs]|(before & after & ->)].
      * by exists EmptyString, after.
      * by exists (String c before), after.
    + intros (before & after & Hs). destruct before as [|c' before].
      * left. by exists after.
      * right. rewrite append_cons in Hs. injection Hs as _ ->.
        by exists before, after.
Qed.

Lemma string_app_assoc (a b c : string) :
  ((a ++ b) ++ c)%string = (a ++ b ++ c)%string.
Proof. induction a as [|x a IH]; [done|]. by rewrite !append_cons, IH. Qed.

Lemma includes_violations_claims (fieldKey : string) :
  Str.includes "violations_claims" fieldKey = true →
  Str.includes "claims" fieldKey = true.
Proof.
  rewrite !includes_app. intros (before & after & ->).
  exists (before ++ "violations_")%string, after.
  by rewrite string_app_assoc.
Qed.

(** X7: [getClaimsArraySchema] returns [null] exactly for the keys that
    contain neither [claims] nor [prior_carriers]; a key that contains
    [violations_claims] gets the violations schema whatever else it
    contains, and a key with both [claims] and [prior_carriers] gets the
    schema of the prior carriers. *)
Theorem getClaimsArraySchema_cases (fieldKey : string) :
  (getClaimsArraySchema fieldKey = None
   ↔ Str.includes "claims" fieldKey = false
     ∧ Str.includes "prior_carriers" fieldKey = false)
  ∧ (getClaimsArraySchema fieldKey = Some VIOLATIONS_CLAIMS_FIELD_SCHEMA
     ↔ Str.includes "violations_claims" fieldKey = true)
  ∧ (getClaimsArraySchema fieldKey = Some PRIOR_CARRIERS_FIELD_SCHEMA
     ↔ Str.includes "violations_claims" fieldKey = false
       ∧ Str.includes "prior_carriers" fieldKey = true)
  ∧ (getClaimsArraySchema fieldKey = Some CLAIMS_FIELD_SCHEMA
     ↔ Str.includes "violations_claims" fieldKey = false
       ∧ Str.includes "claims" fieldKey = true
       ∧ Str.includes "prior_carriers" fieldKey = false).
Proof.
  unfold getClaimsArraySchema.
  pose proof (includes_violations_claims fieldKey) as Hviolations.
  destruct (Str.includes "violations_claims" fieldKey);
    [rewrite (Hviolations eq_refl)|];
    destruct (Str.includes "claims" fieldKey);
    destruct (Str.includes "prior_carriers" fieldKey); simpl;
    repeat split; try done; intros H; destruct_and?; done.
Qed.

(** The three array fields of [FIELD_CONFIGURATIONS]. *)
Example getClaimsArraySchema_registry :
  getClaimsArraySchema "home.prior_carriers" = Some PRIOR_CARRIERS_FIELD_SCHEMA
  ∧ getClaimsArraySchema "home.claims" = Some CLAIMS_FIELD_SCHEMA
  ∧ getClaimsArraySchema "auto.violations_claims" = Some VIOLATIONS_CLAIMS_FIELD_SCHEMA
  ∧ getClaimsArraySchema "home.roof_type" = None.
Proof. repeat split. Qed.

(** ** Nested values *)

Lemma split_nonempty (separator : ascii) (s : string) :
  ∃ piece pieces, Str.split separator s = piece :: pieces.
Proof.
  destruct s as [|c s]; simpl; [by eexists _, _|].
  destruct (Ascii.eqb c separator); [by eexists _, _|].
  destruct (Str.split separator s); by eexists _, _.
Qed.

(** Splitting at the dots of [path1.path2] gives the segments of
    [path1], then those of [path2]. *)
Lemma split_app (separator : ascii) (path1 path2 : string) :
  Str.split separator (path1 ++ String separator path2)
  = Str.split separator path1 ++ Str.split separator path2.
Proof.
  induction path1 as [|c path1 IH].
  - rewrite append_empty. simpl. by rewrite Ascii.eqb_refl.
  - rewrite append_cons. simpl. destruct (Ascii.eqb c separator); [by rewrite IH|].
    rewrite IH. by destruct (split_nonempty separator path1) as (? & ? & ->).
Qed.

(** X8: reading a dotted path is reading its first part and then, from
    the value found there, the rest:
    [getNestedValue(obj, 'a.b') = getNestedValue(getNestedValue(obj, 'a'), 'b')]. *)
Theorem getNestedValue_compose (obj : any) (path1 path2 : string) :
  getNestedValue obj (path1 ++ "." ++ path2)
  = getNestedValue (getNestedValue obj path1) path2.
Proof.
  unfold getNestedValue.
  change ("." ++ path2)%string with (String "." path2).
  by rewrite split_app, fold_left_app.
Qed.

(** X9: a path does not lead through a value that is missing, [null],
    [false], [0] or the empty string: when the first part of a path leads
    through the own properties of nested objects to such a value, or is
    missing from the object, whatever is asked below it is [undefined],
    and nothing throws. *)
Theorem getNestedValue_below_falsy (obj : any) (path1 path2 : string) :
  (∃ v, value_at obj (Str.split "." path1) v ∧ truthy v = false)
  ∨ missing_at obj (Str.split "." path1) →
  getNestedValue obj (path1 ++ "." ++ path2) = VUndefined.
Proof.
  intros Hfalsy.
  assert (truthy (getNestedValue obj path1) = false) as Hvalue.
  { destruct Hfalsy as [(v & Hv%value_at_getNestedValue & Hfalsy)
                       |[Hv|Hv]%missing_at_getNestedValue]; by rewrite Hv. }
  unfold getNestedValue in *.
  change ("." ++ path2)%string with (String "." path2).
  rewrite split_app, fold_left_app.
  destruct (split_nonempty "." path2) as (key & keys & ->). simpl.
  rewrite Hvalue. apply getNestedValue_undefined.
Qed.

Lemma getNestedValue_below_falsy_witness :
  getNestedValue (VObj [("home"%string, VObj [("year_built"%string, VNum 0)])])
    ("home.year_built" ++ "." ++ "length") = VUndefined.
Proof.
  apply getNestedValue_below_falsy. left. exists (VNum 0). split; [|reflexivity].
  eapply value_below; [reflexivity|]. eapply value_below; [reflexivity|].
  apply value_here.
Defined.

(** ** More of the dynamic group materializer *)




(** A group that is not a template, and a template with a pattern other
    than the two the materializer knows, adds nothing and reads nothing. *)
Lemma materialize_skipped (data : any) (dynamicGroups : list FieldGroup.t)
    (template : FieldGroup.t) :
  truthy_bool (FieldGroup.isTemplate template) = false
  ∨ (FieldGroup.templatePattern template ≠ Some "client.household_members[*]"%string
     ∧ FieldGroup.templatePattern template ≠ Some "auto.vehicles[*]"%string) →
  materialize data dynamicGroups template = Normal dynamicGroups.
Proof.
  unfold materialize. intros [->|[Hmembers Hvehicles]]; [done|].
  destruct (negb _ || negb _); [done|]. simpl.
  by repeat (case_decide; [done|]).
Qed.

(** X11: groups that are not templates, and templates with other
    patterns than [client.household_members[*]] and [auto.vehicles[*]],
    contribute nothing and never make the call throw: with such groups
    only, the result is the empty list for every document, [null] and
    [undefined] included. *)
Theorem createDynamicGroups_skipped (data : any) (templateGroups : list FieldGroup.t) :
  Forall
    (λ template,
       truthy_bool (FieldGroup.isTemplate template) = false
       ∨ (FieldGroup.templatePattern template
          ≠ Some "client.household_members[*]"%string
          ∧ FieldGroup.templatePattern template ≠ Some "auto.vehicles[*]"%string))
    templateGroups →
  createDynamicGroups data templateGroups = Normal [].
Proof.
  induction 1 as [|template rest Htemplate _ IH]; [done|].
  rewrite createDynamicGroups_cons, IH.
  by rewrite (materialize_skipped data [] template Htemplate).
Qed.

Lemma createDynamicGroups_skipped_witness :
  createDynamicGroups VNull
    [Sample.additional_interests_template; Sample.orphan] = Normal [].
Proof.
  apply createDynamicGroups_skipped.
  constructor; [right; split; discriminate|].
  constructor; [by left|]. constructor.
Defined.

(** X12: a template of one of the two known patterns makes the whole
    call throw, whatever the other templates contribute, when the
    document is [null] or [undefined], and when the collection it reads is
    a truthy value that is not an array. *)
Theorem createDynamicGroups_throws (data : any) (template : FieldGroup.t)
    (before after : list FieldGroup.t) (section collection : string) :
  FieldGroup.isTemplate template = Some true →
  (FieldGroup.templatePattern template = Some "client.household_members[*]"%string
   ∧ section = "client"%string ∧ collection = "household_members"%string)
  ∨ (FieldGroup.templatePattern template = Some "auto.vehicles[*]"%string
     ∧ section = "auto"%string ∧ collection = "vehicles"%string) →
  data = VUndefined ∨ data = VNull
  ∨ (truthy (optional_member (get data section) collection) = true
     ∧ ∀ elements, optional_member (get data section) collection ≠ VArr elements) →
  createDynamicGroups data (before ++ template :: after) = Throw TypeError.
Proof.
  intros HisTemplate Hpattern Hdata.
  assert (materialize data [] template = Throw TypeError) as Hthrow.
  { unfold materialize. rewrite HisTemplate.
    destruct Hpattern as [(Hpattern & -> & ->)|(Hpattern & -> & ->)];
      rewrite Hpattern; simpl;
      (destruct Hdata as [->|[->|[Htruthy Harray]]]; [done|done|]);
      (destruct data; try done; simpl in *; unfold elements_or_empty;
       rewrite Htruthy;
       by destruct (optional_member _ _) as [| | | | |elements|];
         try done; destruct (Harray elements)). }
  rewrite createDynamicGroups_app, createDynamicGroups_cons, Hthrow.
  destruct (createDynamicGroups data before) as [pushed|[]]; reflexivity.
Qed.

Lemma createDynamicGroups_throws_witness :
  createDynamicGroups
    (VObj [("auto"%string, VObj [("vehicles"%string, VStr "none")])])
    ([Sample.household_member_template] ++ Sample.vehicle_template :: [])
  = Throw TypeError.
Proof.
  apply (createDynamicGroups_throws _ _ _ _ "auto" "vehicles").
  - reflexivity.
  - right. repeat split.
  - right. right. split; [reflexivity|]. intros elements. discriminate.
Defined.

(** *** Ids and orders of the groups of one template *)

Lemma ofNumber_inj (a b : N) : Str.ofNumber a = Str.ofNumber b → a = b.
Proof. intros Hab. by rewrite <- (parseInt_ofNumber a), Hab, parseInt_ofNumber. Qed.

Lemma imap_index {A B : Type} (g : nat → B) (l : list A) :
  ∀ k, imap (λ index _, g (k + index)%nat) l = map g (seq k (length l)).
Proof.
  induction l as [|x l IH]; intros k; simpl; [done|].
  rewrite Nat.add_0_r. f_equal. rewrite <- (IH (S k)).
  apply imap_ext. intros i y _. simpl. f_equal. lia.
Qed.

(** What one template adds: nothing, or the household member groups, or
    the vehicle groups of some array. *)
Lemma materialize_cases (data : any) (template : FieldGroup.t)
    (groups : list FieldGroup.t) :
  materialize data [] template = Normal groups →
  groups = []
  ∨ (∃ elements : list any,
       groups = map (household_member_group template) (seq 0 (length elements)))
  ∨ (∃ elements : list any,
       groups = map (vehicle_group template) (seq 0 (length elements))).
Proof.
  unfold materialize.
  destruct (negb _ || negb _); [intros [= <-]; by left|]. simpl.
  destruct (decide (_ = Some "client.household_members[*]"%string)) as [Hmembers|_].
  - destruct (decide (_ = Some "auto.vehicles[*]"%string)) as [Hvehicles|_];
      [congruence|].
    destruct (member data "client") as [client|]; simpl; [|done].
    destruct (elements_or_empty _) as [elements|]; simpl; [|done].
    intros [= <-]. right. left. exists elements.
    apply (imap_index (household_member_group template) elements 0).
  - destruct (decide (_ = Some "auto.vehicles[*]"%string)) as [_|_]; simpl;
      [|intros [= <-]; by left].
    destruct (member data "auto") as [auto|]; simpl; [|done].
    destruct (elements_or_empty _) as [elements|]; simpl; [|done].
    intros [= <-]. right. right. exists elements.
    apply (imap_index (vehicle_group template) elements 0).
Qed.

Lemma createDynamicGroups_one (data : any) (template : FieldGroup.t) :
  createDynamicGroups data [template] = materialize data [] template.
Proof.
  rewrite createDynamicGroups_cons.
  destruct (materialize data [] template) as [groups|]; simpl; [|done].
  by rewrite app_nil_r.
Qed.

(** X13: the groups materialized for one template have pairwise distinct
    ids. *)
Theorem dynamic_group_ids_distinct (data : any) (template : FieldGroup.t)
    (groups : list FieldGroup.t) :
  createDynamicGroups data [template] = Normal groups →
  NoDup (FieldGroup.id <$> groups).
Proof.
  rewrite createDynamicGroups_one.
  intros [->|[[elements ->]|[elements ->]]]%materialize_cases; [constructor|..];
    rewrite <- list_fmap_compose; apply NoDup_fmap_2; try apply NoDup_seq;
    intros i j Hij; simpl in Hij; injection Hij as Hij;
    apply ofNumber_inj in Hij; lia.
Qed.

Lemma dynamic_group_ids_distinct_witness :
  NoDup (FieldGroup.id
           <$> [vehicle_group Sample.vehicle_template 0;
                vehicle_group Sample.vehicle_template 1;
                vehicle_group Sample.vehicle_template 2]).
Proof.
  apply (dynamic_group_ids_distinct Sample.document Sample.vehicle_template).
  reflexivity.
Defined.

Lemma ordered_seq (template : FieldGroup.t) (g : FieldGroup.t → nat → FieldGroup.t) :
  (∀ i, FieldGroup.order (g template i)
        = (FieldGroup.order template + inject_Z (Z.of_nat i))%Q) →
  ∀ n k, ordered (map (g template) (seq k n)).
Proof.
  intros Horder. unfold ordered.
  induction n as [|n IH]; intros k; simpl; constructor; [apply IH|].
  apply Forall_forall. intros group [i [-> Hi]]%list_elem_of_fmap.
  apply elem_of_seq in Hi. rewrite !Horder.
  apply Qplus_le_r. rewrite <- Zle_Qle. lia.
Qed.

Lemma top_level_names_inherited (allGroups : list FieldGroup.t) (group : FieldGroup.t) :
  is_top_level group = true → names_inherited allGroups group = false.
Proof.
  unfold is_top_level, names_inherited.
  destruct (FieldGroup.parentGroup group) as [parentId|]; [|done].
  intros Htop%negb_true_iff. by rewrite Htop.
Qed.

(** X14: the hierarchy builder keeps the groups of a template without a
    parent in index order: built from these groups alone, it returns, and
    its top level is the list the materializer returned. *)
Theorem dynamic_groups_keep_index_order (data : any) (template : FieldGroup.t)
    (groups : list FieldGroup.t) :
  is_top_level template = true →
  createDynamicGroups data [template] = Normal groups →
  ∃ built,
    buildGroupHierarchy [] groups = Normal built
    ∧ Hierarchy.topLevel built = groups.
Proof.
  intros Htop. rewrite createDynamicGroups_one. intros Hgroups.
  assert (ordered groups ∧ Forall (λ g, is_top_level g = true) groups)
    as [Hordered Hparent].
  { apply materialize_cases in Hgroups as [->|[[elements ->]|[elements ->]]].
    - split; constructor.
    - split; [by apply (ordered_seq template household_member_group)|].
      apply Forall_forall. by intros group [i [-> _]]%list_elem_of_fmap.
    - split; [by apply (ordered_seq template vehicle_group)|].
      apply Forall_forall. by intros group [i [-> _]]%list_elem_of_fmap. }
  assert (Forall (λ g, FieldGroup.id g ≠ "__proto__"%string) groups) as Hids.
  { apply materialize_cases in Hgroups as [->|[[elements ->]|[elements ->]]];
      [constructor|..]; apply Forall_forall;
      by intros group [i [-> _]]%list_elem_of_fmap. }
  destruct (buildGroupHierarchy_returns [] groups) as [built Hbuilt].
  { unfold own_ids. simpl. clear Hordered Hgroups Hparent.
    induction Hids as [|g rest Hg _ IH]; simpl; [constructor|].
    destruct (is_top_level g); [by constructor|done]. }
  { eapply Forall_impl; [exact Hparent|]. intros group.
    apply top_level_names_inherited. }
  exists built. split; [done|].
  rewrite (buildGroupHierarchy_topLevel _ _ _ Hbuilt). simpl.
  assert (List.filter is_top_level groups = groups) as ->.
  { clear Hordered Hgroups Hbuilt Hids.
    induction Hparent as [|g rest Hg _ IH]; simpl; [done|]. by rewrite Hg, IH. }
  symmetry. apply stably_sorted_sort. by split.
Qed.

Lemma dynamic_groups_keep_index_order_witness :
  ∃ built,
    buildGroupHierarchy []
      [vehicle_group Sample.vehicle_template 0;
       vehicle_group Sample.vehicle_template 1;
       vehicle_group Sample.vehicle_template 2] = Normal built
    ∧ Hierarchy.topLevel built
      = [vehicle_group Sample.vehicle_template 0;
         vehicle_group Sample.vehicle_template 1;
         vehicle_group Sample.vehicle_template 2].
Proof.
  apply (dynamic_groups_keep_index_order Sample.document Sample.vehicle_template);
    reflexivity.
Defined.

(** ** More of the group hierarchy builder *)

(** X15: the builder throws when a group names as its parent a member
    that the map inherits from [Object.prototype], and returns otherwise;
    the keys of the map it returns are exactly the ids of the groups
    without a parent: no bucket is made for a child group, and none for
    the parent id that an orphan names.  (No group without a parent has
    the id [__proto__].) *)
Theorem hierarchy_keys (flatGroups : group_registry)
    (dynamicGroups : list FieldGroup.t) :
  let allGroups := map snd flatGroups ++ dynamicGroups in
  own_ids allGroups →
  (Exists (λ group, names_inherited allGroups group = true) allGroups →
   buildGroupHierarchy flatGroups dynamicGroups = Throw TypeError)
  ∧ (Forall (λ group, names_inherited allGroups group = false) allGroups →
     ∃ built,
       buildGroupHierarchy flatGroups dynamicGroups = Normal built
       ∧ ∀ key,
           is_Some (Hierarchy.hierarchy built !! key)
           ↔ ∃ group,
               group ∈ allGroups
               ∧ is_top_level group = true ∧ FieldGroup.id group = key).
Proof.
  intros allGroups Hids. split; [by apply buildGroupHierarchy_throws|].
  intros [built Hbuilt]%(buildGroupHierarchy_returns _ _ Hids).
  exists built. split; [done|]. intros key.
  rewrite (buildGroupHierarchy_lookup _ _ _ _ Hids Hbuilt). case_bool_decide as Hkey.
  - split; [intros _|by eauto].
    apply list_elem_of_fmap in Hkey as (group & -> & Hgroup).
    apply elem_of_filter_list in Hgroup as [Hin Htop]. by exists group.
  - split; [by intros [? [=]]|]. intros (group & Hin & Htop & <-).
    destruct Hkey. apply list_elem_of_fmap. exists group. split; [done|].
    by apply elem_of_filter_list.
Qed.

Lemma hierarchy_keys_witness :
  (Exists
     (λ group,
        names_inherited (map snd Sample.AUTO_GROUPS ++ [Sample.orphan]) group = true)
     (map snd Sample.AUTO_GROUPS ++ [Sample.orphan]) →
   buildGroupHierarchy Sample.AUTO_GROUPS [Sample.orphan] = Throw TypeError)
  ∧ (Forall
       (λ group,
          names_inherited (map snd Sample.AUTO_GROUPS ++ [Sample.orphan]) group = false)
       (map snd Sample.AUTO_GROUPS ++ [Sample.orphan]) →
     ∃ built,
       buildGroupHierarchy Sample.AUTO_GROUPS [Sample.orphan] = Normal built
       ∧ ∀ key,
           is_Some (Hierarchy.hierarchy built !! key)
           ↔ ∃ group,
               group ∈ map snd Sample.AUTO_GROUPS ++ [Sample.orphan]
               ∧ is_top_level group = true ∧ FieldGroup.id group = key).
Proof.
  apply (hierarchy_keys Sample.AUTO_GROUPS [Sample.orphan]).
  unfold own_ids. simpl. repeat (constructor; [discriminate|]). constructor.
Defined.

(** ** Sorting with a comparator *)

Section Sorting.

Context {A : Type} (compareFn : A → A → Q).
Hypothesis compareFn_consistent : consistent compareFn.

Lemma precedes_bool (a b : A) :
  Qle_bool (compareFn a b) 0 = true ↔ precedes compareFn a b.
Proof. apply Qle_bool_iff. Qed.

Lemma precedes_refl (a : A) : precedes compareFn a a.
Proof.
  destruct compareFn_consistent as [Htotal _].
  destruct (Qlt_le_dec 0 (compareFn a a)) as [Hgt|Hle]; [|done].
  apply Htotal. unfold precedes. lra.
Qed.

Lemma tied_refl (a : A) : tied compareFn a a = true.
Proof.
  unfold tied. pose proof (precedes_refl a) as Ha.
  apply precedes_bool in Ha. by rewrite Ha.
Qed.

Lemma tied_precedes (a b : A) :
  tied compareFn a b = true ↔ precedes compareFn a b ∧ precedes compareFn b a.
Proof. unfold tied. by rewrite andb_true_iff, !precedes_bool. Qed.

Lemma insert_sorted_permutation (x : A) (l : list A) :
  insert_sorted compareFn x l ≡ₚ x :: l.
Proof.
  induction l as [|y rest IH]; simpl; [done|].
  destruct (Qle_bool _ _); [done|].
  rewrite IH. apply Permutation_swap.
Qed.

Lemma insert_sorted_sorted (x : A) (l : list A) :
  StronglySorted (precedes compareFn) l →
  StronglySorted (precedes compareFn) (insert_sorted compareFn x l).
Proof.
  destruct compareFn_consistent as [Htotal Htrans].
  induction 1 as [|y rest Hrest IH Hy]; simpl.
  - repeat constructor.
  - destruct (Qle_bool (compareFn x y) 0) eqn:Hxy.
    + apply precedes_bool in Hxy.
      constructor; [by constructor|]. constructor; [done|].
      eapply Forall_impl; [exact Hy|]. intros z Hz. by apply (Htrans x y z).
    + constructor; [done|].
      rewrite insert_sorted_permutation. constructor; [|done].
      apply Htotal. intros Hle. apply precedes_bool in Hle. congruence.
Qed.

Lemma insert_sorted_ties (z x : A) (l : list A) :
  List.filter (tied compareFn z) (insert_sorted compareFn x l)
  = List.filter (tied compareFn z) (x :: l).
Proof.
  destruct compareFn_consistent as [Htotal Htrans].
  induction l as [|y rest IH]; [done|]. cbn [insert_sorted].
  destruct (Qle_bool (compareFn x y) 0) eqn:Hxy; [done|].
  cbn [List.filter] in *. rewrite IH.
  destruct (tied compareFn z x) eqn:Hx, (tied compareFn z y) eqn:Hy; try done.
  apply tied_precedes in Hx as [_ Hxz], Hy as [Hzy _].
  pose proof (Htrans x z y Hxz Hzy) as Hle.
  apply precedes_bool in Hle. congruence.
Qed.

(** [sort] is a stable sort for a comparator that orders the elements. *)
Lemma sort_stable_sort_of (l : list A) :
  stable_sort_of compareFn l (sort compareFn l).
Proof.
  induction l as [|x rest (Hsorted & Hperm & Hties)]; simpl.
  - split; [constructor|done].
  - split; [by apply insert_sorted_sorted|]. split.
    + by rewrite insert_sorted_permutation, Hperm.
    + intros z. rewrite insert_sorted_ties. simpl. by rewrite Hties.
Qed.

Lemma sorted_head (x y : A) (l : list A) :
  StronglySorted (precedes compareFn) (x :: l) → y ∈ x :: l →
  precedes compareFn x y.
Proof.
  intros [Hl Hx]%StronglySorted_inv [->|Hy]%elem_of_cons; [apply precedes_refl|].
  rewrite Forall_forall in Hx. by apply Hx.
Qed.

Lemma sorted_unique (l1 : list A) :
  ∀ l2,
    StronglySorted (precedes compareFn) l1 →
    StronglySorted (precedes compareFn) l2 →
    (∀ z, List.filter (tied compareFn z) l1 = List.filter (tied compareFn z) l2) →
    l1 = l2.
Proof.
  induction l1 as [|x l1 IH]; intros [|y l2] H1 H2 Hties; [done|..].
  - specialize (Hties y). simpl in Hties. by rewrite tied_refl in Hties.
  - specialize (Hties x). simpl in Hties. by rewrite tied_refl in Hties.
  - assert (x ∈ List.filter (tied compareFn x) (y :: l2))
      as [Hx _]%elem_of_filter_list.
    { rewrite <- Hties. simpl. rewrite tied_refl. left. }
    assert (y ∈ List.filter (tied compareFn y) (x :: l1))
      as [Hy _]%elem_of_filter_list.
    { rewrite Hties. simpl. rewrite tied_refl. left. }
    apply (sorted_head _ _ _ H2) in Hx. apply (sorted_head _ _ _ H1) in Hy.
    assert (tied compareFn x y = true) as Hxy by by apply tied_precedes.
    assert (x = y) as <-.
    { specialize (Hties x). simpl in Hties.
      rewrite Hxy, tied_refl in Hties. by injection Hties. }
    apply StronglySorted_inv in H1 as [H1 _], H2 as [H2 _].
    f_equal. apply IH; [done|done|].
    intros z. specialize (Hties z). simpl in Hties.
    destruct (tied compareFn z x); [by injection Hties|done].
Qed.

(** A stable sort has one result, which [sort] computes. *)
Lemma stable_sort_of_sort (l sorted : list A) :
  stable_sort_of compareFn l sorted → sorted = sort compareFn l.
Proof.
  intros (Hsorted & _ & Hties).
  destruct (sort_stable_sort_of l) as (Hsorted' & _ & Hties').
  apply sorted_unique; [done|done|].
  intros z. by rewrite Hties, Hties'.
Qed.

End Sorting.

(** In a sorted list the earlier element may stand in front of the
    later one. *)
Lemma sorted_lookup {A : Type} (R : A → A → Prop) (l : list A) :
  StronglySorted R l →
  ∀ i j a b, l !! i = Some a → l !! j = Some b → (i < j)%nat → R a b.
Proof.
  induction 1 as [|x rest Hrest IH Hx]; intros i j a b Ha Hb Hij; [done|].
  destruct j as [|j]; [lia|]. simpl in Hb.
  destruct i as [|i]; simpl in Ha.
  - injection Ha as ->. rewrite Forall_forall in Hx.
    apply Hx. by eapply list_elem_of_lookup_2.
  - apply (IH i j); [done|done|lia].
Qed.

(** ** Fields by section and group *)

Lemma compareFields_precedes (FIELD_GROUPS : group_registry)
    (a b : FieldConfiguration.t) :
  precedes (compareFields FIELD_GROUPS) a b
  ↔ (groupOrder FIELD_GROUPS a < groupOrder FIELD_GROUPS b)%Q
    ∨ ((groupOrder FIELD_GROUPS a == groupOrder FIELD_GROUPS b)%Q
       ∧ (FieldConfiguration.order a <= FieldConfiguration.order b)%Q).
Proof.
  unfold precedes, compareFields. cbv zeta.
  destruct (Qeq_bool _ _) eqn:Hgroup; cbn [negb].
  - apply Qeq_bool_iff in Hgroup. split; [intros H; right; split; [done|lra]|].
    intros [H|[_ H]]; lra.
  - apply Qeq_bool_neq in Hgroup. split; [intros H; left; lra|].
    intros [H|[H _]]; [lra|done].
Qed.

Lemma compareFields_consistent (FIELD_GROUPS : group_registry) :
  consistent (compareFields FIELD_GROUPS).
Proof.
  split.
  - intros a b. rewrite !compareFields_precedes. intros Hab.
    destruct (Qlt_le_dec (groupOrder FIELD_GROUPS b) (groupOrder FIELD_GROUPS a))
      as [Hlt|Hle]; [by left|].
    destruct (Qlt_le_dec (groupOrder FIELD_GROUPS a) (groupOrder FIELD_GROUPS b))
      as [Hlt'|Hle']; [destruct Hab; by left|].
    right. split; [lra|].
    destruct (Qlt_le_dec (FieldConfiguration.order a) (FieldConfiguration.order b))
      as [Horder|Horder]; [|done].
    destruct Hab. right. split; lra.
  - intros a b c. rewrite !compareFields_precedes.
    intros [Hab|[Hab Hab']] [Hbc|[Hbc Hbc']].
    + left. lra.
    + left. lra.
    + left. lra.
    + right. split; lra.
Qed.

(** X16: [getFieldsBySection] returns the fields of the section, each as
    often as the table has it and no other field, in ascending order of
    the order of their group and, within the same group order, of their
    own order; fields that tie on both keep the order of the table.  A
    field without a group, with an unknown group, or with a group of
    order 0 sorts with the group order 999. *)
Theorem getFieldsBySection_sorted (FIELD_CONFIGURATIONS : registry)
    (FIELD_GROUPS : group_registry) (section : Section_) :
  let ofSection :=
    List.filter (λ field, section_eqb (FieldConfiguration.section field) section)
      (map snd FIELD_CONFIGURATIONS) in
  let fields := getFieldsBySection FIELD_CONFIGURATIONS FIELD_GROUPS section in
  stable_sort_of (compareFields FIELD_GROUPS) ofSection fields
  ∧ (∀ field, field ∈ fields
              ↔ field ∈ map snd FIELD_CONFIGURATIONS
                ∧ FieldConfiguration.section field = section)
  ∧ (∀ i j a b,
       fields !! i = Some a → fields !! j = Some b → (i < j)%nat →
       (groupOrder FIELD_GROUPS a < groupOrder FIELD_GROUPS b)%Q
       ∨ ((groupOrder FIELD_GROUPS a == groupOrder FIELD_GROUPS b)%Q
          ∧ (FieldConfiguration.order a <= FieldConfiguration.order b)%Q))
  ∧ (∀ sorted,
       stable_sort_of (compareFields FIELD_GROUPS) ofSection sorted → sorted = fields).
Proof.
  intros ofSection fields.
  assert (stable_sort_of (compareFields FIELD_GROUPS) ofSection fields) as Hsort.
  { apply sort_stable_sort_of, compareFields_consistent. }
  split; [done|]. destruct Hsort as (Hsorted & Hperm & Hties).
  split; [|split].
  - intros field. rewrite Hperm. unfold ofSection. rewrite elem_of_filter_list.
    split; intros [Hin Hsection]; (split; [done|]).
    + by destruct (FieldConfiguration.section field), section.
    + rewrite Hsection. by destruct section.
  - intros i j a b Ha Hb Hij. apply compareFields_precedes.
    by apply (sorted_lookup _ _ Hsorted i j a b).
  - intros sorted Hsorted'.
    by apply (stable_sort_of_sort _ (compareFields_consistent FIELD_GROUPS)).
Qed.

Lemma assoc_Some_elem {A : Type} (key : string) (entries : list (string * A)) (a : A) :
  assoc key entries = Some a → (key, a) ∈ entries.
Proof.
  induction entries as [|[k a'] rest IH]; simpl; [done|].
  destruct (String.eqb_spec k key) as [->|_].
  - intros [= ->]. left.
  - intros H. right. by apply IH.
Qed.

Lemma appendField_assoc (groupId key : string) (field : FieldConfiguration.t)
    (grouped : list (string * list FieldConfiguration.t)) :
  assoc key (appendField groupId field grouped)
  = if String.eqb groupId key
    then Some (default [] (assoc key grouped) ++ [field])
    else assoc key grouped.
Proof.
  induction grouped as [|[k fields] rest IH]; simpl.
  - rewrite (String.eqb_sym groupId key). by destruct (String.eqb key groupId).
  - destruct (String.eqb_spec k groupId) as [->|Hk]; simpl.
    + by destruct (String.eqb_spec groupId key).
    + rewrite IH. destruct (String.eqb_spec k key) as [->|Hkey]; [|done].
      by destruct (String.eqb_spec groupId key).
Qed.

(** A new group id becomes the last key; the keys that are there stay
    where they are. *)
Lemma appendField_keys (groupId : string) (field : FieldConfiguration.t)
    (grouped : list (string * list FieldConfiguration.t)) :
  (appendField groupId field grouped).*1
  = if decide (groupId ∈ grouped.*1) then grouped.*1 else grouped.*1 ++ [groupId].
Proof.
  induction grouped as [|[k fields] rest IH].
  - done.
  - cbn [appendField]. destruct (String.eqb_spec k groupId) as [->|Hne].
    + rewrite !fmap_cons. cbn [fst]. rewrite decide_True; [done|left].
    + rewrite !fmap_cons, IH. cbn [fst].
      destruct (decide (groupId ∈ rest.*1)) as [Hin|Hout].
      * rewrite decide_True; [done|by right].
      * rewrite decide_False; [done|]. by intros [->|?]%elem_of_cons.
Qed.

Lemma appendField_NoDup (groupId : string) (field : FieldConfiguration.t)
    (grouped : list (string * list FieldConfiguration.t)) :
  NoDup (grouped.*1) → NoDup ((appendField groupId field grouped).*1).
Proof.
  intros Hkeys. rewrite appendField_keys.
  destruct (decide (groupId ∈ grouped.*1)) as [Hin|Hout]; [done|].
  apply NoDup_app. split; [done|]. split.
  - by intros key Hkey ->%list_elem_of_singleton.
  - apply NoDup_singleton.
Qed.

(** The bucket of a group after the fields have been appended. *)
Lemma grouped_assoc (fields : list FieldConfiguration.t) (key : string) :
  ∀ grouped,
    assoc key
      (fold_left (λ grouped field, appendField (groupIdOf field) field grouped)
         fields grouped)
    = match assoc key grouped, bucket key fields with
      | Some before, added => Some (before ++ added)
      | None, [] => None
      | None, added => Some added
      end.
Proof.
  induction fields as [|field rest IH]; intros grouped; simpl.
  - destruct (assoc key grouped); [by rewrite app_nil_r|done].
  - rewrite IH, appendField_assoc. unfold bucket. simpl.
    destruct (String.eqb (groupIdOf field) key); simpl; [|done].
    destruct (assoc key grouped) as [before|]; simpl; [by rewrite <- app_assoc|done].
Qed.

Lemma grouped_keys (fields : list FieldConfiguration.t) :
  ∀ grouped,
    NoDup (grouped.*1) →
    NoDup ((fold_left (λ grouped field, appendField (groupIdOf field) field grouped)
              fields grouped).*1).
Proof.
  induction fields as [|field rest IH]; intros grouped Hkeys; simpl; [done|].
  by apply IH, appendField_NoDup.
Qed.

(** The entries of the grouping are the non-empty buckets. *)
Lemma grouped_buckets (fields : list FieldConfiguration.t)
    (groupId : string) (fieldsOfGroup : list FieldConfiguration.t) :
  let grouped :=
    fold_left (λ grouped field, appendField (groupIdOf field) field grouped)
      fields [] in
  (groupId, fieldsOfGroup) ∈ grouped
  ↔ fieldsOfGroup = bucket groupId fields ∧ fieldsOfGroup ≠ [].
Proof.
  intros grouped.
  assert (NoDup (grouped.*1)) as Hkeys by (apply grouped_keys; constructor).
  assert (assoc groupId grouped
          = match bucket groupId fields with
            | [] => None
            | added => Some added
            end) as Hassoc by apply (grouped_assoc fields groupId []).
  split.
  - intros Hin%(assoc_elem _ _ _ Hkeys). rewrite Hassoc in Hin.
    destruct (bucket groupId fields); [done|]. by injection Hin as <-.
  - intros [-> Hne]. apply assoc_Some_elem. rewrite Hassoc.
    by destruct (bucket groupId fields).
Qed.

(** A group id that is the name of no inherited member gets its bucket;
    one that is such a name makes the call throw, no bucket having such a
    name. *)
Lemma pushField_own (groupId : string) (field : FieldConfiguration.t)
    (grouped : list (string * list FieldConfiguration.t)) :
  inherited groupId = false →
  pushField groupId field grouped = Normal (appendField groupId field grouped).
Proof. intros Hown. unfold pushField. rewrite Hown. by destruct (assoc _ _). Qed.

Lemma pushField_inherited (groupId : string) (field : FieldConfiguration.t)
    (grouped : list (string * list FieldConfiguration.t)) :
  inherited groupId = true →
  Forall (λ key, inherited key = false) (grouped.*1) →
  pushField groupId field grouped = Throw TypeError.
Proof.
  intros Hinherited Hkeys. unfold pushField. rewrite Hinherited.
  destruct (assoc groupId grouped) as [fields|] eqn:Hbucket; [|done].
  apply assoc_Some_elem in Hbucket. rewrite Forall_forall in Hkeys.
  rewrite (Hkeys groupId) in Hinherited; [done|].
  apply list_elem_of_fmap. by exists (groupId, fields).
Qed.

Lemma pushFields_thrown (fields : list FieldConfiguration.t) (e : exn) :
  fold_left
    (λ pushed field, grouped ← pushed; pushField (groupIdOf field) field grouped)
    fields (Throw e) = Throw e.
Proof. by induction fields. Qed.

Lemma pushFields_own (fields : list FieldConfiguration.t) :
  Forall (λ field, inherited (groupIdOf field) = false) fields →
  ∀ grouped,
    fold_left
      (λ pushed field, grouped ← pushed; pushField (groupIdOf field) field grouped)
      fields (Normal grouped)
    = Normal
        (fold_left (λ grouped field, appendField (groupIdOf field) field grouped)
           fields grouped).
Proof.
  induction 1 as [|field rest Hfield _ IH]; intros grouped; simpl; [done|].
  by rewrite (pushField_own _ _ _ Hfield), IH.
Qed.

Lemma pushFields_inherited (fields : list FieldConfiguration.t) :
  Exists (λ field, inherited (groupIdOf field) = true) fields →
  ∀ grouped,
    Forall (λ key, inherited key = false) (grouped.*1) →
    fold_left
      (λ pushed field, grouped ← pushed; pushField (groupIdOf field) field grouped)
      fields (Normal grouped)
    = Throw TypeError.
Proof.
  induction fields as [|field rest IH]; intros Hfields grouped Hkeys;
    [by apply Exists_nil in Hfields|].
  simpl. destruct (inherited (groupIdOf field)) eqn:Hfield.
  - rewrite (pushField_inherited _ _ _ Hfield Hkeys). apply pushFields_thrown.
  - rewrite (pushField_own _ _ _ Hfield). apply IH.
    + apply Exists_cons in Hfields as [Hhead|Hrest]; [congruence|done].
    + rewrite appendField_keys. destruct (decide _); [done|].
      apply Forall_app. split; [done|]. by constructor.
Qed.

Lemma own_or_inherited {A : Type} (name : A → string) (l : list A) :
  Forall (λ x, inherited (name x) = false) l
  ∨ Exists (λ x, inherited (name x) = true) l.
Proof.
  induction l as [|x rest [IH|IH]]; [left; constructor| |right; by right].
  destruct (inherited (name x)) eqn:Hx; [right; by left|left; by constructor].
Qed.

(** What [getFieldsGrouped] returns, when it returns. *)
Lemma getFieldsGrouped_Normal (FIELD_CONFIGURATIONS : registry)
    (FIELD_GROUPS : group_registry) (section : Section_)
    (grouped : list (string * list FieldConfiguration.t)) :
  getFieldsGrouped FIELD_CONFIGURATIONS FIELD_GROUPS section = Normal grouped →
  grouped
  = fold_left (λ grouped field, appendField (groupIdOf field) field grouped)
      (getFieldsBySection FIELD_CONFIGURATIONS FIELD_GROUPS section) [].
Proof.
  unfold getFieldsGrouped.
  destruct (own_or_inherited groupIdOf
              (getFieldsBySection FIELD_CONFIGURATIONS FIELD_GROUPS section))
    as [Hown|Hinherited].
  - rewrite (pushFields_own _ Hown). by intros [= <-].
  - rewrite (pushFields_inherited _ Hinherited []); [done|constructor].
Qed.

(** X17: [getFieldsGrouped] throws when a field of the section has a
    group id that is the name of a member that objects inherit from
    [Object.prototype], and returns otherwise.  What it returns has one
    key per group id that a field of the section has (its [group], or
    [ungrouped] when that is missing or empty), and under it exactly the
    fields of [getFieldsBySection] with that group id, in the order of
    that list; no bucket is empty, and every field of the section is in
    the bucket of its group id. *)
Theorem getFieldsGrouped_buckets (FIELD_CONFIGURATIONS : registry)
    (FIELD_GROUPS : group_registry) (section : Section_) :
  let fields := getFieldsBySection FIELD_CONFIGURATIONS FIELD_GROUPS section in
  (Exists (λ field, inherited (groupIdOf field) = true) fields →
   getFieldsGrouped FIELD_CONFIGURATIONS FIELD_GROUPS section = Throw TypeError)
  ∧ (Forall (λ field, inherited (groupIdOf field) = false) fields →
     ∃ grouped,
       getFieldsGrouped FIELD_CONFIGURATIONS FIELD_GROUPS section = Normal grouped
       ∧ NoDup (grouped.*1)
       ∧ (∀ groupId fieldsOfGroup,
            (groupId, fieldsOfGroup) ∈ grouped
            ↔ fieldsOfGroup = bucket groupId fields ∧ fieldsOfGroup ≠ [])
       ∧ (∀ field,
            field ∈ fields →
            ∃ fieldsOfGroup,
              (groupIdOf field, fieldsOfGroup) ∈ grouped ∧ field ∈ fieldsOfGroup)).
Proof.
  intros fields. split.
  { intros Hinherited. unfold getFieldsGrouped.
    apply pushFields_inherited; [done|constructor]. }
  intros Hown. eexists. split.
  { unfold getFieldsGrouped. by apply pushFields_own. }
  split; [apply grouped_keys; constructor|].
  split; [intros groupId fieldsOfGroup; apply grouped_buckets|].
  intros field Hfield. exists (bucket (groupIdOf field) fields).
  assert (field ∈ bucket (groupIdOf field) fields) as Hin.
  { apply elem_of_filter_list. split; [done|]. apply String.eqb_refl. }
  split; [|done]. apply grouped_buckets. split; [done|].
  intros Hnil. rewrite Hnil in Hin. by apply elem_of_nil in Hin.
Qed.

Lemma StronglySorted_filter_list {A : Type} (R : A → A → Prop) (f : A → bool)
    (l : list A) :
  StronglySorted R l → StronglySorted R (List.filter f l).
Proof.
  induction 1 as [|x rest Hrest IH Hx]; simpl; [constructor|].
  destruct (f x); [|done]. constructor; [done|].
  rewrite Forall_forall in *. intros y [Hy _]%elem_of_filter_list. by apply Hx.
Qed.

Lemma StronglySorted_weaken {A : Type} (R R' : A → A → Prop) (l : list A) :
  (∀ a b, a ∈ l → b ∈ l → R a b → R' a b) →
  StronglySorted R l → StronglySorted R' l.
Proof.
  intros Hweaken Hsorted.
  induction Hsorted as [|x rest Hrest IH Hx]; [constructor|].
  constructor.
  - apply IH. intros a b Ha Hb. apply Hweaken; by right.
  - rewrite Forall_forall in *. intros y Hy.
    apply Hweaken; [left|by right|by apply Hx].
Qed.

(** X18: when [getFieldsGrouped] returns, the fields within the bucket
    of a group, [ungrouped] apart, are in ascending order of their own
    [order]. *)
Theorem getFieldsGrouped_ordered (FIELD_CONFIGURATIONS : registry)
    (FIELD_GROUPS : group_registry) (section : Section_)
    (grouped : list (string * list FieldConfiguration.t))
    (groupId : string) (fieldsOfGroup : list FieldConfiguration.t) :
  getFieldsGrouped FIELD_CONFIGURATIONS FIELD_GROUPS section = Normal grouped →
  (groupId, fieldsOfGroup) ∈ grouped →
  groupId ≠ "ungrouped"%string →
  StronglySorted
    (λ a b, (FieldConfiguration.order a <= FieldConfiguration.order b)%Q)
    fieldsOfGroup.
Proof.
  intros ->%getFieldsGrouped_Normal Hbucket HgroupId.
  apply grouped_buckets in Hbucket as [-> _].
  destruct (sort_stable_sort_of _ (compareFields_consistent FIELD_GROUPS)
              (List.filter
                 (λ field, section_eqb (FieldConfiguration.section field) section)
                 (map snd FIELD_CONFIGURATIONS))) as (Hsorted & _).
  apply (StronglySorted_weaken (precedes (compareFields FIELD_GROUPS)));
    [|by apply StronglySorted_filter_list].
  assert (∀ field,
            field ∈ bucket groupId
                      (getFieldsBySection FIELD_CONFIGURATIONS FIELD_GROUPS section) →
            or_empty (FieldConfiguration.group field) = groupId) as Hgroup.
  { intros field [_ Hid]%elem_of_filter_list. apply String.eqb_eq in Hid.
    unfold groupIdOf in Hid. by destruct (truthy_string _). }
  intros a b Ha%Hgroup Hb%Hgroup [Hlt|[_ Hle]]%compareFields_precedes; [|done].
  unfold groupOrder in Hlt. rewrite Ha, Hb in Hlt. lra.
Qed.

Lemma getFieldsGrouped_ordered_witness :
  StronglySorted
    (λ a b, (FieldConfiguration.order a <= FieldConfiguration.order b)%Q)
    [Sample.household_member_first_name; Sample.household_member_middle_name].
Proof.
  apply (getFieldsGrouped_ordered Sample.FIELD_CONFIGURATIONS Sample.AUTO_GROUPS
           applicant
           [("personal_information"%string, [Sample.client_first_name]);
            ("household_member_template"%string,
             [Sample.household_member_first_name;
              Sample.household_member_middle_name])]
           "household_member_template").
  - reflexivity.
  - right. left.
  - discriminate.
Defined.

(** ** Fields by hierarchical groups *)

Lemma materialize_template (data : any) (template : FieldGroup.t)
    (groups : list FieldGroup.t) :
  materialize data [] template = Normal groups →
  groups = [] ∨ truthy_bool (FieldGroup.isTemplate template) = true.
Proof.
  unfold materialize. destruct (truthy_bool _); simpl; [by right|].
  intros [= <-]. by left.
Qed.

(** Every group of the materializer comes from a template of the list,
    whose parent it has. *)
Lemma createDynamicGroups_parent (data : any) (templateGroups : list FieldGroup.t) :
  ∀ groups,
    createDynamicGroups data templateGroups = Normal groups →
    ∀ group,
      group ∈ groups →
      ∃ template,
        template ∈ templateGroups
        ∧ truthy_bool (FieldGroup.isTemplate template) = true
        ∧ FieldGroup.parentGroup group = FieldGroup.parentGroup template.
Proof.
  induction templateGroups as [|template rest IH]; intros groups.
  - intros [= <-] group Hgroup. by apply elem_of_nil in Hgroup.
  - rewrite createDynamicGroups_cons.
    destruct (materialize data [] template) as [added|] eqn:Hadded; simpl; [|done].
    destruct (createDynamicGroups data rest) as [pushed|]; simpl; [|done].
    intros [= <-] group [Hgroup|Hgroup]%elem_of_app.
    + exists template. split; [left|].
      apply materialize_template in Hadded as Htemplate.
      destruct Htemplate as [->|Htemplate]; [by apply elem_of_nil in Hgroup|].
      split; [done|].
      apply materialize_cases in Hadded as [->|[[elements ->]|[elements ->]]].
      * by apply elem_of_nil in Hgroup.
      * by apply list_elem_of_fmap in Hgroup as (i & -> & _).
      * by apply list_elem_of_fmap in Hgroup as (i & -> & _).
    + destruct (IH pushed eq_refl group Hgroup) as (t & Ht & Hrest).
      exists t. split; [by right|done].
Qed.

(** X19: when [getFieldsHierarchical] returns, every group of
    [FIELD_GROUPS] without a parent is in its top level, the template
    groups among them: templates are not taken out of the hierarchy.
    Every dynamic group has the parent of a template of [FIELD_GROUPS],
    and is in the top level exactly when that template has no parent. *)
Theorem getFieldsHierarchical_topLevel (FIELD_GROUPS : group_registry)
    (section : Section_) (auditData : any) (fields : HierarchicalFields.t) :
  getFieldsHierarchical FIELD_GROUPS section auditData = Normal fields →
  (∀ group,
     group ∈ map snd FIELD_GROUPS → is_top_level group = true →
     group ∈ HierarchicalFields.topLevel fields)
  ∧ (∀ group,
       group ∈ HierarchicalFields.dynamicGroups fields →
       ∃ template,
         template ∈ map snd FIELD_GROUPS
         ∧ truthy_bool (FieldGroup.isTemplate template) = true
         ∧ FieldGroup.parentGroup group = FieldGroup.parentGroup template
         ∧ (group ∈ HierarchicalFields.topLevel fields
            ↔ is_top_level template = true)).
Proof.
  unfold getFieldsHierarchical.
  destruct (createDynamicGroups auditData _) as [dynamicGroups|] eqn:Hdynamic;
    simpl; [|done].
  destruct (buildGroupHierarchy FIELD_GROUPS dynamicGroups) as [built|] eqn:Hbuilt;
    simpl; [|done].
  intros [= <-]. simpl.
  assert (∀ group,
            group ∈ Hierarchy.topLevel built
            ↔ group ∈ map snd FIELD_GROUPS ++ dynamicGroups
              ∧ is_top_level group = true) as HtopLevel.
  { intros group. rewrite (buildGroupHierarchy_topLevel _ _ _ Hbuilt).
    destruct (sort_stably_sorted
                (List.filter is_top_level (map snd FIELD_GROUPS ++ dynamicGroups)))
      as (_ & Hperm & _).
    by rewrite Hperm, elem_of_filter_list. }
  split.
  - intros group Hgroup Htop. apply HtopLevel. split; [|done].
    apply elem_of_app. by left.
  - intros group Hgroup.
    destruct (createDynamicGroups_parent _ _ _ Hdynamic group Hgroup)
      as (template & Htemplate & HisTemplate & Hparent).
    apply elem_of_filter_list in Htemplate as [Htemplate _].
    exists template. split; [done|]. split; [done|]. split; [done|].
    rewrite HtopLevel. unfold is_top_level. rewrite Hparent.
    split; [by intros [_ ?]|]. intros Htop. split; [|done].
    apply elem_of_app. by right.
Qed.

Lemma getFieldsHierarchical_topLevel_witness :
  ∃ fields,
    getFieldsHierarchical Sample.AUTO_GROUPS auto Sample.document = Normal fields
    ∧ Sample.vehicle_template ∈ HierarchicalFields.topLevel fields
    ∧ vehicle_group Sample.vehicle_template 2 ∈ HierarchicalFields.topLevel fields.
Proof.
  eexists. split; [reflexivity|].
  destruct (getFieldsHierarchical_topLevel Sample.AUTO_GROUPS auto Sample.document
              _ eq_refl) as [Hstatic Hdynamic].
  split.
  - apply Hstatic; [|reflexivity]. simpl. do 2 right. left.
  - destruct (Hdynamic (vehicle_group Sample.vehicle_template 2))
      as (template & _ & _ & Hparent & Htop).
    + simpl. do 2 right. left.
    + apply Htop. unfold is_top_level. by rewrite <- Hparent.
Defined.

(** ** Round trip through any template with one placeholder *)

Lemma plain_not_bracket (c : ascii) :
  (Ascii.eqb c "." || negb (is_syntax_character c)) = true → c ≠ "["%char.
Proof. by intros Hc ->. Qed.

Lemma no_placeholder (c : ascii) (s : string) :
  c ≠ "["%char →
  Str.bracketed_digits (String c s) = None ∧ placeholder_length (String c s) = None.
Proof.
  intros Hc.
  assert (Str.bracketed_digits (String c s) = None) as Hdigits.
  { unfold Str.bracketed_digits.
    destruct c as [[] [] [] [] [] [] [] []]; try reflexivity. by destruct Hc. }
  split; [done|]. unfold placeholder_length.
  rewrite string_prefix_cons, Hdigits.
  by destruct (ascii_dec "[" c) as [<-|_].
Qed.

Lemma template_pattern_plain (path rest : string) :
  plain_path path = true →
  template_pattern 0 (path ++ rest)
  = (plain_pattern path ++.) <$> template_pattern 0 rest.
Proof.
  induction path as [|c path IH]; intros Hplain.
  - rewrite append_empty. simpl. by destruct (template_pattern 0 rest).
  - cbn [plain_path] in Hplain. apply andb_true_iff in Hplain as [Hc Hplain].
    rewrite append_cons. cbn [template_pattern plain_pattern].
    destruct (no_placeholder c (path ++ rest) (plain_not_bracket c Hc)) as [_ ->].
    rewrite (IH Hplain).
    destruct (Ascii.eqb c ".") eqn:Hdot;
      [|simpl in Hc; apply negb_true_iff in Hc; rewrite Hc];
      by destruct (template_pattern 0 rest).
Qed.

Lemma template_pattern_placeholder_plain (path1 path2 : string) :
  plain_path path1 = true → plain_path path2 = true →
  template_pattern 0 (path1 ++ "[*]" ++ path2)
  = Some (plain_pattern path1 ++ PIndex :: plain_pattern path2).
Proof.
  intros Hplain1 Hplain2. rewrite (template_pattern_plain path1 _ Hplain1).
  assert (template_pattern 0 ("[*]" ++ path2) = Some (PIndex :: plain_pattern path2))
    as ->; [|done].
  rewrite !append_cons, append_empty. cbn [template_pattern].
  assert (placeholder_length (String "[" (String "*" (String "]" path2))) = Some 3%nat)
    as ->.
  { unfold placeholder_length. rewrite !string_prefix_cons.
    repeat (destruct (ascii_dec _ _); [|done]). by destruct path2. }
  cbn [template_pattern Nat.sub].
  rewrite <- (append_empty_r path2) at 1.
  rewrite (template_pattern_plain path2 EmptyString Hplain2). simpl.
  by rewrite app_nil_r.
Qed.

Lemma regex_test_plain (path : string) (pattern : list pattern_item) (s : string) :
  regex_test (plain_pattern path ++ pattern) (path ++ s) = regex_test pattern s.
Proof.
  induction path as [|c path IH]; [done|].
  rewrite append_cons. cbn [plain_pattern app].
  destruct (Ascii.eqb_spec c ".") as [->|_].
  - by rewrite regex_test_any.
  - by rewrite regex_test_char.
Qed.

Lemma indexMatch_plain (path s : string) :
  plain_path path = true → indexMatch (path ++ s) = indexMatch s.
Proof.
  induction path as [|c path IH]; intros Hplain; [done|].
  cbn [plain_path] in Hplain. apply andb_true_iff in Hplain as [Hc Hplain].
  rewrite append_cons, indexMatch_skip; [by apply IH|].
  by apply no_placeholder, plain_not_bracket.
Qed.

(** X20: the round trip through a template with one placeholder.  For a
    template key [<path1>[*]<path2>] whose two parts are dots and
    characters without meaning in a regular expression, and whose group
    is [<base>_template] with no other [_template] in it, the key
    [<path1>[<i>]<path2>] with any index [i] up to [MAX_SAFE_INTEGER],
    when it has no entry of its own and no earlier template matches it,
    resolves to the template's definition with that key and the group
    [<base>_<i>]. *)
Theorem template_round_trip_plain (before after : registry)
    (config : FieldConfiguration.t) (path1 path2 base : string) (i : N) :
  let templateKey := (path1 ++ "[*]" ++ path2)%string in
  let dataFieldKey := (path1 ++ "[" ++ Str.ofNumber i ++ "]" ++ path2)%string in
  let FIELD_CONFIGURATIONS := before ++ (templateKey, config) :: after in
  (i <= MAX_SAFE_INTEGER)%N →
  plain_path path1 = true →
  plain_path path2 = true →
  Forall (passed_over dataFieldKey) before →
  (∀ c, (dataFieldKey, c) ∉ FIELD_CONFIGURATIONS) →
  FieldConfiguration.group config = Some (base ++ "_template")%string →
  Str.includes "_template" base = false →
  getFieldConfigForDataField FIELD_CONFIGURATIONS dataFieldKey
  = Resolved
      (FieldConfiguration.with_key_group config dataFieldKey
         (Some (base ++ "_" ++ Str.ofNumber i)%string)).
Proof.
  intros templateKey dataFieldKey FIELD_CONFIGURATIONS
    _ Hplain1 Hplain2 Hbefore Hverbatim Hgroup Hbase.
  assert (Str.bracketed_digits ("[" ++ Str.ofNumber i ++ "]" ++ path2)
          = Some (Str.ofNumber i, path2)) as Hindex.
  { rewrite append_cons, append_empty.
    change ("]" ++ path2)%string with (String "]" path2).
    apply bracketed_digits_ofNumber. }
  unfold FIELD_CONFIGURATIONS.
  rewrite (resolve_first before after dataFieldKey (templateKey, config)).
  - f_equal. unfold instantiate. f_equal. simpl.
    assert (index_of dataFieldKey = i) as ->.
    { unfold index_of, dataFieldKey.
      rewrite (indexMatch_plain path1 _ Hplain1), indexMatch_unfold, Hindex.
      apply parseInt_ofNumber. }
    rewrite Hgroup, dynamic_group_replace. by rewrite replace_suffix.
  - done.
  - done.
  - split.
    + apply includes_app. by exists path1, path2.
    + exists (plain_pattern path1 ++ PIndex :: plain_pattern path2).
      split; [by apply template_pattern_placeholder_plain|].
      unfold dataFieldKey. rewrite regex_test_plain.
      rewrite (regex_test_index _ _ _ _ Hindex).
      rewrite <- (app_nil_r (plain_pattern path2)).
      rewrite <- (append_empty_r path2) at 2.
      by rewrite regex_test_plain.
Qed.

Lemma template_round_trip_plain_witness :
  getFieldConfigForDataField Sample.FIELD_CONFIGURATIONS
    ("client.household_members" ++ "[" ++ Str.ofNumber 7 ++ "]" ++ ".middle_name")
  = Resolved
      (FieldConfiguration.with_key_group Sample.household_member_middle_name
         ("client.household_members" ++ "[" ++ Str.ofNumber 7 ++ "]" ++ ".middle_name")
         (Some ("household_member" ++ "_" ++ Str.ofNumber 7)%string)).
Proof.
  apply (template_round_trip_plain
           [("client.first_name"%string, Sample.client_first_name);
            ("client.household_members[*].first_name"%string,
             Sample.household_member_first_name)]
           [("home.foundation_land_type"%string, Sample.foundation_land_type)]
           Sample.household_member_middle_name
           "client.household_members" ".middle_name" "household_member" 7).
  - by vm_compute.
  - reflexivity.
  - reflexivity.
  - repeat constructor; intros Htemplate;
      first [discriminate Htemplate | eexists; split; reflexivity].
  - vm_compute. no_entry.
  - reflexivity.
  - reflexivity.
Defined.
